(** * The swarm scheduler: agents, coordinator and workflow planner

    A shallow embedding of [agent.py] (tasks and the agent life cycle),
    [swarm.py] (the coordinator, its pool and its sweeps) and
    [orchestrator.py] (decomposition, priorities and leveling), followed by
    the properties of the scheduling engine.

    Python objects are shared by reference: a task sits in the queue, in the
    coordinator's records and in the agent that runs it at the same time.
    Tasks therefore live in a store indexed by object identity ([loc]) and
    everything else holds locations. *)

From Stdlib Require Import ZArith QArith String Ascii List Bool Lia.
From stdpp Require Import base decidable option list gmap strings sorting pretty.

Local Open Scope string_scope.
Local Open Scope Z_scope.
Local Open Scope list_scope.

(** ** Python primitives used by the sources *)

Module Py.

(** [str.lower], on the ASCII range. *)
Definition lower_ascii (c : ascii) : ascii :=
  let n := nat_of_ascii c in
  if ((65 <=? n)%nat && (n <=? 90)%nat)%bool then ascii_of_nat (n + 32) else c.

Fixpoint lower (s : string) : string :=
  match s with
  | EmptyString => EmptyString
  | String c s' => String (lower_ascii c) (lower s')
  end.

(** [sub in s] on strings. *)
Fixpoint contains (sub s : string) : bool :=
  (String.prefix sub s
   || match s with
      | EmptyString => false
      | String _ s' => contains sub s'
      end)%bool.

(** [any(keyword in s for keyword in keywords)]. *)
Definition any_in (keywords : list string) (s : string) : bool :=
  existsb (fun keyword => contains keyword s) keywords.

(** [l[:n]]: a negative [n] counts from the end of the list. *)
Definition slice_to {A : Type} (n : Z) (l : list A) : list A :=
  if 0 <=? n then take (Z.to_nat n) l
  else take (length l - Z.to_nat (- n))%nat l.

(** [l.remove(x)]: drops the first element equal to [x]; [None] stands for
    the [ValueError] raised when there is none. *)
Fixpoint remove {A : Type} `{EqDecision A} (x : A) (l : list A) : option (list A) :=
  match l with
  | [] => None
  | y :: l' => if decide (y = x) then Some l' else cons y <$> remove x l'
  end.

(** An insertion-ordered [dict], as association list with unique keys:
    [d[k] = v] overwrites in place or appends, [del d[k]] drops the entry. *)
Fixpoint dict_set {V : Type} (k : string) (v : V) (d : list (string * V)) : list (string * V) :=
  match d with
  | [] => [(k, v)]
  | (k', v') :: d' => if decide (k' = k) then (k, v) :: d' else (k', v') :: dict_set k v d'
  end.

Fixpoint dict_get {V : Type} (k : string) (d : list (string * V)) : option V :=
  match d with
  | [] => None
  | (k', v') :: d' => if decide (k' = k) then Some v' else dict_get k d'
  end.

Fixpoint dict_del {V : Type} (k : string) (d : list (string * V)) : list (string * V) :=
  match d with
  | [] => []
  | (k', v') :: d' => if decide (k' = k) then d' else (k', v') :: dict_del k d'
  end.

Definition dict_keys {V : Type} (d : list (string * V)) : list string := d.*1.

(** Values of type [Any]; [VNone] is [None]. *)
Inductive value :=
| VNone
| VBool (b : bool)
| VInt (n : Z)
| VStr (s : string).

#[global] Instance value_eq_dec : EqDecision value.
Proof. solve_decision. Defined.

(** What an awaited call does: it returns, or it raises an exception
    carrying a message. *)
Inductive outcome (A : Type) :=
| Returns (a : A)
| Raises (e : string).
Arguments Returns {A} a.
Arguments Raises {A} e.

End Py.

(** Object identity of a task. *)
Definition loc := nat.

(** ** agent.py: tasks *)

Inductive TaskPriority := LOW | MEDIUM | HIGH | CRITICAL.

#[global] Instance TaskPriority_eq_dec : EqDecision TaskPriority.
Proof. solve_decision. Defined.

Definition priority_value (p : TaskPriority) : Z :=
  match p with LOW => 1 | MEDIUM => 2 | HIGH => 3 | CRITICAL => 4 end.

Inductive AgentStatus := IDLE | BUSY | ERROR | COMPLETED | TERMINATED.

#[global] Instance AgentStatus_eq_dec : EqDecision AgentStatus.
Proof. solve_decision. Defined.

Module Task.

(** The dataclass [Task]; timestamps are microseconds, as [datetime] counts
    them, and the two floats the code writes to [progress] are rationals. *)
Record t := mk {
  id : string;
  description : string;
  priority : TaskPriority;
  parameters : gmap string Py.value;
  dependencies : list string;
  created_at : Z;
  assigned_to : option string;
  status : string;
  result : Py.value;
  error : option string;
  progress : Q
}.

#[global] Instance Q_eq_dec : EqDecision Q.
Proof. solve_decision. Defined.

#[global] Instance eq_dec : EqDecision t.
Proof. solve_decision. Defined.

(** [Task(description=..., priority=..., dependencies=..., parameters=...)]
    with the dataclass defaults for the other fields; [uuid] and [now] are
    what [uuid.uuid4()] and [datetime.now()] returned. *)
Definition new (uuid : string) (now : Z) (description : string)
    (priority : TaskPriority) (dependencies : list string)
    (parameters : gmap string Py.value) : t :=
  mk uuid description priority parameters dependencies now None "pending" Py.VNone None 0%Q.

Definition set_priority (p : TaskPriority) (x : t) : t :=
  mk (id x) (description x) p (parameters x) (dependencies x) (created_at x)
     (assigned_to x) (status x) (result x) (error x) (progress x).

Definition set_dependencies (d : list string) (x : t) : t :=
  mk (id x) (description x) (priority x) (parameters x) d (created_at x)
     (assigned_to x) (status x) (result x) (error x) (progress x).

Definition set_assigned_to (a : option string) (x : t) : t :=
  mk (id x) (description x) (priority x) (parameters x) (dependencies x) (created_at x)
     a (status x) (result x) (error x) (progress x).

Definition set_status (s : string) (x : t) : t :=
  mk (id x) (description x) (priority x) (parameters x) (dependencies x) (created_at x)
     (assigned_to x) s (result x) (error x) (progress x).

Definition set_result (r : Py.value) (x : t) : t :=
  mk (id x) (description x) (priority x) (parameters x) (dependencies x) (created_at x)
     (assigned_to x) (status x) r (error x) (progress x).

Definition set_error (e : option string) (x : t) : t :=
  mk (id x) (description x) (priority x) (parameters x) (dependencies x) (created_at x)
     (assigned_to x) (status x) (result x) e (progress x).

Definition set_progress (p : Q) (x : t) : t :=
  mk (id x) (description x) (priority x) (parameters x) (dependencies x) (created_at x)
     (assigned_to x) (status x) (result x) (error x) p.

End Task.

(** The task objects alive in the program. *)
Abbreviation store := (gmap loc Task.t).

(** ** agent.py: the agent life cycle *)

Module BaseAgent.

(** [performance_metrics]: two integer counters and two floats, the floats
    taken as rationals. *)
Record metrics := mk_metrics {
  tasks_completed : Z;
  tasks_failed : Z;
  total_execution_time : Q;
  average_task_time : Q
}.

(** The fields of [BaseAgent] the scheduler reads or writes. What a
    concrete agent class adds is its name and what [get_capabilities]
    returns. *)
Record t := mk {
  id : string;
  name : string;
  status : AgentStatus;
  current_task : option loc;
  capabilities : list string;
  created_at : Z;
  last_heartbeat : Z;
  performance_metrics : metrics
}.

Definition set_status (s : AgentStatus) (a : t) : t :=
  mk (id a) (name a) s (current_task a) (capabilities a) (created_at a)
     (last_heartbeat a) (performance_metrics a).

Definition set_current_task (c : option loc) (a : t) : t :=
  mk (id a) (name a) (status a) c (capabilities a) (created_at a)
     (last_heartbeat a) (performance_metrics a).

Definition set_last_heartbeat (h : Z) (a : t) : t :=
  mk (id a) (name a) (status a) (current_task a) (capabilities a) (created_at a)
     h (performance_metrics a).

Definition set_performance_metrics (m : metrics) (a : t) : t :=
  mk (id a) (name a) (status a) (current_task a) (capabilities a) (created_at a)
     (last_heartbeat a) m.

(** [__init__]: [agent_id] is the caller's id or the fresh uuid. *)
Definition init (agent_id name : string) (capabilities : list string) (now : Z) : t :=
  mk agent_id name IDLE None capabilities now now (mk_metrics 0 0 0%Q 0%Q).

Definition get_capabilities (self : t) : list string := capabilities self.

(** [assign_task]: the task object is written through its reference. *)
Definition assign_task (self : t) (task : loc) (tasks : store) : t * store * bool :=
  if decide (status self ≠ IDLE) then (self, tasks, false)
  else
    let self := set_current_task (Some task) self in
    let self := set_status BUSY self in
    let tasks := alter (Task.set_assigned_to (Some (id self))) task tasks in
    let tasks := alter (Task.set_status "in_progress") task tasks in
    (self, tasks, true).

(** The [except Exception as e] branch of [execute_task]. *)
Definition execute_task_failed (e : string) (self : t) (task : loc) (tasks : store)
    : t * store * Py.outcome Py.value :=
  let tasks := alter (Task.set_error (Some e)) task tasks in
  let tasks := alter (Task.set_status "failed") task tasks in
  let self := set_status ERROR self in
  let m := performance_metrics self in
  let self :=
    set_performance_metrics
      (mk_metrics (tasks_completed m) (tasks_failed m + 1)
                  (total_execution_time m) (average_task_time m)) self in
  (self, tasks, Py.Raises e).

(** [execute_task]. [process_task] is what the guarded calls of the [try]
    block did (the reasoning step, the task body of the concrete agent, the
    analysis step): a result, or the exception one of them raised;
    [execution_time] is the measured duration in seconds. A division by a
    zero counter raises inside the [try] block like any other failure. *)
Definition execute_task (process_task : Py.outcome Py.value) (execution_time : Q)
    (self : t) (tasks : store) : t * store * Py.outcome Py.value :=
  match current_task self with
  | None => (self, tasks, Py.Raises "No task assigned")
  | Some task =>
      match process_task with
      | Py.Returns result =>
          let tasks := alter (Task.set_result result) task tasks in
          let tasks := alter (Task.set_status "completed") task tasks in
          let tasks := alter (Task.set_progress 100%Q) task tasks in
          let m := performance_metrics self in
          let completed := tasks_completed m + 1 in
          let total := (total_execution_time m + execution_time)%Q in
          if decide (completed = 0) then
            execute_task_failed "float division by zero"
              (set_performance_metrics
                 (mk_metrics completed (tasks_failed m) total (average_task_time m)) self)
              task tasks
          else
            let m := mk_metrics completed (tasks_failed m) total
                                (total / inject_Z completed)%Q in
            let self := set_performance_metrics m self in
            let self := set_status COMPLETED self in
            (self, tasks, Py.Returns result)
      | Py.Raises e => execute_task_failed e self task tasks
      end
  end.

Definition update_heartbeat (now : Z) (self : t) : t := set_last_heartbeat now self.

(** [terminate] of the base class. *)
Definition terminate (self : t) : t := set_status TERMINATED self.

(** What its callers can do to an agent, and through it to the task objects,
    between two observations. *)
Inductive step : t * store → t * store → Prop :=
| step_assign self tasks task :
    step (self, tasks)
         ((assign_task self task tasks).1.1, (assign_task self task tasks).1.2)
| step_execute self tasks process_task execution_time :
    step (self, tasks)
         ((execute_task process_task execution_time self tasks).1.1,
          (execute_task process_task execution_time self tasks).1.2)
| step_heartbeat self tasks now : step (self, tasks) (update_heartbeat now self, tasks)
| step_terminate self tasks : step (self, tasks) (terminate self, tasks).

End BaseAgent.

(** ** zai_integration.py: the result cache *)

Module zai_integration.

(** The [wrapper] that [with_zai_cache] returns, with its [cache] dictionary
    passed in and out. [cache_key] is [str(args) + str(sorted(kwargs.items()))]
    and [func] is what the awaited call of the wrapped function does, when it
    is made. *)
Definition wrapper (cache_key : string) (func : Py.outcome Py.value)
    (cache : list (string * Py.value)) : list (string * Py.value) * Py.outcome Py.value :=
  match Py.dict_get cache_key cache with
  | Some cached => (cache, Py.Returns cached)
  | None =>
      match func with
      | Py.Returns result =>
          let cache := Py.dict_set cache_key result cache in
          let cache :=
            if (100 <? length cache)%nat then
              let oldest_keys := take 50 (Py.dict_keys cache) in
              foldl (fun cache key => Py.dict_del key cache) cache oldest_keys
            else cache in
          (cache, Py.Returns result)
      | Py.Raises e => (cache, Py.Raises e)
      end
  end.

End zai_integration.

(** ** swarm.py: the agent factory *)

Module AgentFactory.

(** The keys of [agent_types]. *)
Inductive agent_type :=
| web_scraper | researcher | coder | orchestrator
| analyzer | content_generator | searcher.

Definition class_name (k : agent_type) : string :=
  match k with
  | web_scraper => "WebScraperAgent"
  | researcher => "ResearchAgent"
  | coder => "CodeExecutorAgent"
  | orchestrator => "TaskOrchestratorAgent"
  | analyzer => "DataAnalyzerAgent"
  | content_generator => "ContentGeneratorAgent"
  | searcher => "SearchAgent"
  end.

(** [get_capabilities] of each agent class. *)
Definition class_capabilities (k : agent_type) : list string :=
  match k with
  | web_scraper => ["web_scraping"; "data_extraction"; "content_fetching"]
  | researcher => ["research"; "information_synthesis"; "data_analysis"; "search"]
  | coder => ["code_execution"; "script_running"; "code_generation"; "file_operations"]
  | orchestrator =>
      ["task_decomposition"; "workflow_orchestration"; "agent_coordination";
       "dependency_management"; "task_prioritization"; "resource_allocation";
       "progress_monitoring"]
  | analyzer =>
      ["data_analysis"; "statistical_analysis"; "data_visualization";
       "pattern_recognition"; "data_cleaning"; "metrics_calculation"; "trend_analysis"]
  | content_generator =>
      ["content_generation"; "text_writing"; "article_creation"; "summary_writing";
       "creative_writing"; "technical_writing"; "content_planning"]
  | searcher =>
      ["web_search"; "information_retrieval"; "source_validation"; "result_ranking";
       "query_optimization"; "deep_search"; "fact_finding"]
  end.

(** [self.agent_types[k]()]. The constructor of the orchestrator class
    builds its tool table from [self.handle_dependencies], a method the
    class does not have, and so raises [AttributeError]. The module of the
    analyzer class, analyzer.py, is not valid Python (line 193 is an
    annotation of a string literal), so there is no [DataAnalyzerAgent] to
    construct: no call yields an agent of this class. The other five classes
    are taken as registered. *)
Definition construct (k : agent_type) (uuid : string) (now : Z) : Py.outcome BaseAgent.t :=
  match k with
  | orchestrator =>
      Py.Raises "'TaskOrchestratorAgent' object has no attribute 'handle_dependencies'"
  | analyzer =>
      Py.Raises "illegal target for annotation (analyzer.py, line 193)"
  | _ => Py.Returns (BaseAgent.init uuid (class_name k) (class_capabilities k) now)
  end.

(** [create_generic_agent], when awaited. *)
Definition create_generic_agent (uuid : string) (now : Z) : Py.outcome BaseAgent.t :=
  construct researcher uuid now.

(** What [create_agent_for_task] hands back: an agent, or, from its last
    branch, the coroutine object of a [create_generic_agent()] call that is
    returned without being awaited. *)
Inductive created :=
| Agent (a : BaseAgent.t)
| Coroutine.

Definition agent_type_for (task_desc : string) : option agent_type :=
  if Py.any_in ["scrape"; "crawl"; "extract"; "fetch"] task_desc then Some web_scraper
  else if Py.any_in ["research"; "analyze"; "investigate"] task_desc then Some researcher
  else if Py.any_in ["code"; "program"; "script"; "develop"] task_desc then Some coder
  else if Py.any_in ["coordinate"; "organize"; "manage"] task_desc then Some orchestrator
  else if Py.any_in ["data"; "statistics"; "metrics"] task_desc then Some analyzer
  else if Py.any_in ["write"; "create"; "generate"] task_desc then Some content_generator
  else if Py.any_in ["search"; "find"; "lookup"] task_desc then Some searcher
  else None.

Definition create_agent_for_task (task : Task.t) (uuid : string) (now : Z)
    : Py.outcome created :=
  let task_desc := Py.lower (Task.description task) in
  match agent_type_for task_desc with
  | Some k =>
      match construct k uuid now with
      | Py.Returns a => Py.Returns (Agent a)
      | Py.Raises e => Py.Raises e
      end
  | None => Py.Returns Coroutine
  end.

End AgentFactory.

(** ** swarm.py: the coordinator *)

#[global] Instance Task_inhabited : Inhabited Task.t :=
  populate (Task.new "" 0 "" MEDIUM [] ∅).

Module SwarmCoordinator.

(** [agents] is a [dict] read in insertion order; the two task records are
    only looked up by key; [task_queue] is the unbounded FIFO queue. *)
Record t := mk {
  agents : list (string * BaseAgent.t);
  task_queue : list loc;
  completed_tasks : gmap string loc;
  active_tasks : gmap string loc;
  is_running : bool;
  max_agents : Z;
  scaling_threshold : Z;
  idle_timeout : Z
}.

Definition set_agents (x : list (string * BaseAgent.t)) (c : t) : t :=
  mk x (task_queue c) (completed_tasks c) (active_tasks c) (is_running c)
     (max_agents c) (scaling_threshold c) (idle_timeout c).

Definition set_task_queue (x : list loc) (c : t) : t :=
  mk (agents c) x (completed_tasks c) (active_tasks c) (is_running c)
     (max_agents c) (scaling_threshold c) (idle_timeout c).

Definition set_completed_tasks (x : gmap string loc) (c : t) : t :=
  mk (agents c) (task_queue c) x (active_tasks c) (is_running c)
     (max_agents c) (scaling_threshold c) (idle_timeout c).

Definition set_active_tasks (x : gmap string loc) (c : t) : t :=
  mk (agents c) (task_queue c) (completed_tasks c) x (is_running c)
     (max_agents c) (scaling_threshold c) (idle_timeout c).

Definition set_is_running (x : bool) (c : t) : t :=
  mk (agents c) (task_queue c) (completed_tasks c) (active_tasks c) x
     (max_agents c) (scaling_threshold c) (idle_timeout c).

(** [__init__]; [settings_max_agents] is [settings.max_agents]. The factory
    it builds registers its classes by importing their modules; the state
    below is the coordinator once that registration is through, with the
    analyzer class, whose module does not parse, left unconstructible (see
    [AgentFactory.construct]). *)
Definition init (settings_max_agents : Z) : t :=
  mk [] [] ∅ ∅ false settings_max_agents 5 300.

(** [len(self.agents)]. *)
Definition pool_size (self : t) : Z := Z.of_nat (length (agents self)).

Definition submit_task (task : loc) (self : t) (tasks : store) : t * string :=
  let self := set_task_queue (task_queue self ++ [task]) self in
  let self :=
    set_active_tasks (<[Task.id (tasks !!! task) := task]> (active_tasks self)) self in
  (self, Task.id (tasks !!! task)).

Definition _agent_can_handle_task (agent : BaseAgent.t) (task : Task.t) : bool :=
  let capabilities := BaseAgent.get_capabilities agent in
  let task_desc := Py.lower (Task.description task) in
  existsb (fun capability => Py.contains (Py.lower capability) task_desc) capabilities.

(** [_get_suitable_agent]: the agent found or created, with its key in the
    pool; [None] when the pool is full; an exception when the factory
    raises or hands back the coroutine object, whose [id] cannot be read. *)
Definition _get_suitable_agent (self : t) (task : Task.t) (uuid : string) (now : Z)
    : t * Py.outcome (option (string * BaseAgent.t)) :=
  match
    List.find
      (fun ka => bool_decide (BaseAgent.status ka.2 = IDLE)
                 && _agent_can_handle_task ka.2 task)
      (agents self)
  with
  | Some ka => (self, Py.Returns (Some ka))
  | None =>
      if pool_size self <? max_agents self then
        match AgentFactory.create_agent_for_task task uuid now with
        | Py.Returns (AgentFactory.Agent agent) =>
            (set_agents (Py.dict_set (BaseAgent.id agent) agent (agents self)) self,
             Py.Returns (Some (BaseAgent.id agent, agent)))
        | Py.Returns AgentFactory.Coroutine =>
            (self, Py.Raises "'coroutine' object has no attribute 'id'")
        | Py.Raises e => (self, Py.Raises e)
        end
      else (self, Py.Returns None)
  end.

(** [_execute_agent_task]: [agent] runs its current task, then the
    coordinator files [task] under its id. *)
Definition _execute_agent_task (process_task : Py.outcome Py.value) (execution_time : Q)
    (agent : BaseAgent.t) (task : loc) (self : t) (tasks : store)
    : BaseAgent.t * t * store :=
  match BaseAgent.execute_task process_task execution_time agent tasks with
  | (agent, tasks, Py.Returns result) =>
      let tasks := alter (Task.set_result result) task tasks in
      let task_id := Task.id (tasks !!! task) in
      let self := set_completed_tasks (<[task_id := task]> (completed_tasks self)) self in
      let self := set_active_tasks (delete task_id (active_tasks self)) self in
      (agent, self, tasks)
  | (agent, tasks, Py.Raises e) =>
      let tasks := alter (Task.set_error (Some e)) task tasks in
      let task_id := Task.id (tasks !!! task) in
      let self := set_completed_tasks (<[task_id := task]> (completed_tasks self)) self in
      let self := set_active_tasks (delete task_id (active_tasks self)) self in
      (agent, self, tasks)
  end.

(** The agents the monitoring sweep selects at [current_time]
    (microseconds; [idle_timeout] is in seconds). *)
Definition idle_timed_out (self : t) (current_time : Z) (agent : BaseAgent.t) : bool :=
  bool_decide (BaseAgent.status agent = IDLE)
  && (idle_timeout self * 1000000 <? current_time - BaseAgent.last_heartbeat agent).

Definition agents_to_remove (self : t) (current_time : Z) : list string :=
  (List.filter (fun ka => idle_timed_out self current_time ka.2) (agents self)).*1.

(** The removal loop of the sweep: each selected agent is looked up,
    terminated and deleted; the terminated agent objects are collected,
    with their keys, in [removed]. A key that is not in the pool raises
    [KeyError], which ends the sweep. *)
Fixpoint remove_agents (ids : list string) (pool : list (string * BaseAgent.t))
    (removed : list (string * BaseAgent.t))
    : list (string * BaseAgent.t) * list (string * BaseAgent.t) :=
  match ids with
  | [] => (pool, removed)
  | agent_id :: ids =>
      match Py.dict_get agent_id pool with
      | Some agent =>
          remove_agents ids (Py.dict_del agent_id pool)
                        (removed ++ [(agent_id, BaseAgent.terminate agent)])
      | None => (pool, removed)
      end
  end.

(** One sweep of [_monitor_agents]: the coordinator afterwards, and the
    agents it terminated. *)
Definition _monitor_agents (current_time : Z) (self : t)
    : t * list (string * BaseAgent.t) :=
  let '(pool, removed) :=
    remove_agents (agents_to_remove self current_time) (agents self) [] in
  (set_agents pool self, removed).

(** The creation loop of the scaling sweep; [uuid4 i] and [now i] are the
    uuid and the time the [i]-th constructor call reads. *)
Fixpoint create_agents (n : nat) (i : nat) (uuid4 : nat → string) (now : nat → Z)
    (pool : list (string * BaseAgent.t)) : list (string * BaseAgent.t) :=
  match n with
  | O => pool
  | S n =>
      match AgentFactory.create_generic_agent (uuid4 i) (now i) with
      | Py.Returns agent =>
          create_agents n (S i) uuid4 now (Py.dict_set (BaseAgent.id agent) agent pool)
      | Py.Raises _ => pool
      end
  end.

Definition num_to_create (self : t) : Z :=
  Z.min (Z.of_nat (length (task_queue self)) - scaling_threshold self)
        (max_agents self - pool_size self).

(** One sweep of [_auto_scale]. *)
Definition _auto_scale (uuid4 : nat → string) (now : nat → Z) (self : t) : t :=
  let queue_size := Z.of_nat (length (task_queue self)) in
  if (scaling_threshold self <? queue_size) && (pool_size self <? max_agents self) then
    set_agents
      (create_agents (Z.to_nat (num_to_create self)) 0 uuid4 now (agents self)) self
  else self.

Definition start (self : t) : t := set_is_running true self.

Definition stop (self : t) : t :=
  let self := set_is_running false self in
  set_agents (prod_map id BaseAgent.terminate <$> agents self) self.

(** *** The running system

    The coordinator, the task objects, and the [_execute_agent_task]
    coroutines that were created and have not finished yet (the key of the
    agent in the pool, and the task). *)
Record world := mk_world {
  coordinator : t;
  tasks : store;
  executing : list (string * loc)
}.

(** One iteration of [_process_task_queue]. An empty queue times out and
    the loop continues; an exception is logged and the loop continues. *)
Definition _process_task_queue (uuid : string) (now : Z) (w : world) : world :=
  let self := coordinator w in
  match task_queue self with
  | [] => w
  | task :: queue =>
      let self := set_task_queue queue self in
      match _get_suitable_agent self (tasks w !!! task) uuid now with
      | (self, Py.Returns (Some (k, agent))) =>
          let '(agent, tasks', _) := BaseAgent.assign_task agent task (tasks w) in
          mk_world (set_agents (Py.dict_set k agent (agents self)) self) tasks'
                   (executing w ++ [(k, task)])
      | (self, Py.Returns None) =>
          mk_world (set_task_queue (task_queue self ++ [task]) self) (tasks w) (executing w)
      | (self, Py.Raises _) => mk_world self (tasks w) (executing w)
      end
  end.

(** The [i]-th running execution finishes. Its agent is in the pool: a
    sweep only removes idle agents. *)
Definition finish_execution (i : nat) (process_task : Py.outcome Py.value)
    (execution_time : Q) (w : world) : world :=
  match executing w !! i with
  | Some (k, task) =>
      match Py.dict_get k (agents (coordinator w)) with
      | Some agent =>
          let '(agent, self, tasks') :=
            _execute_agent_task process_task execution_time agent task
                                (coordinator w) (tasks w) in
          mk_world (set_agents (Py.dict_set k agent (agents self)) self) tasks'
                   (delete i (executing w))
      | None => w
      end
  | None => w
  end.

(** What the event loop can do next. A caller submits a task object [x] it
    holds at [task], new or not. The sweeps are not tied to [is_running]: an
    iteration that has passed its loop test still runs after [stop]. *)
Inductive step : world → world → Prop :=
| step_submit w task (x : Task.t) :
    step w (mk_world (submit_task task (coordinator w) (<[task := x]> (tasks w))).1
                     (<[task := x]> (tasks w)) (executing w))
| step_dispatch w uuid now : step w (_process_task_queue uuid now w)
| step_finish w i process_task execution_time :
    step w (finish_execution i process_task execution_time w)
| step_monitor w current_time :
    step w (mk_world (_monitor_agents current_time (coordinator w)).1 (tasks w) (executing w))
| step_scale w uuid4 now :
    step w (mk_world (_auto_scale uuid4 now (coordinator w)) (tasks w) (executing w))
| step_start w : step w (mk_world (start (coordinator w)) (tasks w) (executing w))
| step_stop w : step w (mk_world (stop (coordinator w)) (tasks w) (executing w)).

Definition initial (settings_max_agents : Z) : world :=
  mk_world (init settings_max_agents) ∅ [].

Definition reachable (settings_max_agents : Z) (w : world) : Prop :=
  rtc step (initial settings_max_agents) w.

End SwarmCoordinator.

(** ** orchestrator.py: the workflow planner *)

Module TaskOrchestratorAgent.

(** *** Decomposition

    Every [Task(...)] call draws a fresh id and reads the clock: [uuid4 i]
    and [now i] are what the [i]-th call of a decomposition gets. *)
Section Decompose.
Variable uuid4 : nat → string.
Variable now : nat → Z.

Definition _decompose_research_task (task : Task.t) : list Task.t :=
  let search_task :=
    Task.new (uuid4 0) (now 0)
      ("Search for information: " +:+ Task.description task) HIGH []
      (<["query" := Py.VStr (Task.description task)]>
         (<["num_results" := Py.VInt 10]> ∅)) in
  let analysis_task :=
    Task.new (uuid4 1) (now 1)
      ("Analyze research findings for: " +:+ Task.description task) MEDIUM
      [Task.id search_task]
      (<["depth" := Py.VInt 2]> (<["analyze_sources" := Py.VBool true]> ∅)) in
  let summary_task :=
    Task.new (uuid4 2) (now 2)
      ("Summarize research on: " +:+ Task.description task) MEDIUM
      [Task.id analysis_task]
      (<["max_length" := Py.VInt 500]> ∅) in
  [search_task; analysis_task; summary_task].

Definition _decompose_development_task (task : Task.t) : list Task.t :=
  let requirements_task :=
    Task.new (uuid4 0) (now 0)
      ("Analyze requirements for: " +:+ Task.description task) HIGH []
      (<["analysis_type" := Py.VStr "requirements"]> ∅) in
  let design_task :=
    Task.new (uuid4 1) (now 1)
      ("Design solution for: " +:+ Task.description task) HIGH
      [Task.id requirements_task]
      (<["design_level" := Py.VStr "high_level"]> ∅) in
  let impl_task :=
    Task.new (uuid4 2) (now 2)
      ("Implement: " +:+ Task.description task) HIGH
      [Task.id design_task]
      (<["language" := Py.VStr "python"]> (<["include_tests" := Py.VBool true]> ∅)) in
  let test_task :=
    Task.new (uuid4 3) (now 3)
      ("Test implementation of: " +:+ Task.description task) MEDIUM
      [Task.id impl_task]
      (<["test_type" := Py.VStr "automated"]> ∅) in
  [requirements_task; design_task; impl_task; test_task].

Definition _decompose_scraping_task (task : Task.t) : list Task.t :=
  let target_task :=
    Task.new (uuid4 0) (now 0)
      ("Identify scraping targets for: " +:+ Task.description task) HIGH []
      (<["target_type" := Py.VStr "websites"]> ∅) in
  let scrape_task :=
    Task.new (uuid4 1) (now 1)
      ("Scrape data for: " +:+ Task.description task) HIGH
      [Task.id target_task]
      (<["use_selenium" := Py.VBool false]> (<["extract_links" := Py.VBool true]> ∅)) in
  let process_task :=
    Task.new (uuid4 2) (now 2)
      ("Process scraped data for: " +:+ Task.description task) MEDIUM
      [Task.id scrape_task]
      (<["processing_type" := Py.VStr "cleaning_and_structuring"]> ∅) in
  [target_task; scrape_task; process_task].

Definition _decompose_content_task (task : Task.t) : list Task.t :=
  let research_task :=
    Task.new (uuid4 0) (now 0)
      ("Research content for: " +:+ Task.description task) HIGH []
      (<["content_research" := Py.VBool true]> ∅) in
  let generate_task :=
    Task.new (uuid4 1) (now 1)
      ("Generate content: " +:+ Task.description task) HIGH
      [Task.id research_task]
      (<["content_type" := Py.VStr "article"]> (<["word_count" := Py.VInt 1000]> ∅)) in
  let review_task :=
    Task.new (uuid4 2) (now 2)
      ("Review and refine content: " +:+ Task.description task) MEDIUM
      [Task.id generate_task]
      (<["review_type" := Py.VStr "quality_check"]> ∅) in
  [research_task; generate_task; review_task].

Definition _decompose_generic_task (task : Task.t) : list Task.t :=
  let analysis_task :=
    Task.new (uuid4 0) (now 0)
      ("Analyze task: " +:+ Task.description task) HIGH []
      (<["analysis_depth" := Py.VStr "medium"]> ∅) in
  let execute_task :=
    Task.new (uuid4 1) (now 1)
      ("Execute task: " +:+ Task.description task) HIGH
      [Task.id analysis_task] ∅ in
  let validate_task :=
    Task.new (uuid4 2) (now 2)
      ("Validate results: " +:+ Task.description task) MEDIUM
      [Task.id execute_task]
      (<["validation_type" := Py.VStr "quality_check"]> ∅) in
  [analysis_task; execute_task; validate_task].

(** The template [decompose_task] selects, before truncation. *)
Definition template (task : Task.t) : list Task.t :=
  let description := Py.lower (Task.description task) in
  if Py.any_in ["research"; "analyze"; "investigate"] description
  then _decompose_research_task task
  else if Py.any_in ["build"; "create"; "develop"; "code"] description
  then _decompose_development_task task
  else if Py.any_in ["scrape"; "extract"; "collect"] description
  then _decompose_scraping_task task
  else if Py.any_in ["write"; "generate"; "content"] description
  then _decompose_content_task task
  else _decompose_generic_task task.

Definition decompose_task (task : Task.t) (max_subtasks : Z) : list Task.t :=
  Py.slice_to max_subtasks (template task).

End Decompose.

(** *** Priorities

    [assign_priorities] writes [task.priority] through the references held
    by [workflow], then sorts the references. *)

Fixpoint assign_loop (n : Z) (i : Z) (workflow : list loc) (tasks : store) : store :=
  match workflow with
  | [] => tasks
  | task :: workflow =>
      let tasks :=
        if decide (Task.priority (tasks !!! task) = MEDIUM) then
          if i <? n / 3 then alter (Task.set_priority HIGH) task tasks
          else if 2 * n / 3 <? i then alter (Task.set_priority LOW) task tasks
          else tasks
        else tasks in
      assign_loop n (i + 1) workflow tasks
  end.

(** The sort key [(-t.priority.value, len(t.dependencies))] and the order
    of Python tuples on it. *)
Definition sort_key (t : Task.t) : Z * Z :=
  (- priority_value (Task.priority t), Z.of_nat (length (Task.dependencies t))).

Definition key_le (a b : Z * Z) : Prop :=
  a.1 < b.1 ∨ (a.1 = b.1 ∧ a.2 <= b.2).

#[global] Instance key_le_dec a b : Decision (key_le a b).
Proof. unfold key_le. apply _. Defined.

(** [sorted(l, key=key)], which is stable: an element goes in front of the
    first later element whose key is not smaller. *)
Fixpoint insert_sorted {A : Type} (key : A → Z * Z) (x : A) (l : list A) : list A :=
  match l with
  | [] => [x]
  | y :: l' =>
      if decide (key_le (key x) (key y)) then x :: y :: l'
      else y :: insert_sorted key x l'
  end.

Definition sorted {A : Type} (key : A → Z * Z) (l : list A) : list A :=
  foldr (insert_sorted key) [] l.

Definition assign_priorities (workflow : list loc) (tasks : store) : list loc * store :=
  let tasks := assign_loop (Z.of_nat (length workflow)) 0 workflow tasks in
  (sorted (fun task => sort_key (tasks !!! task)) workflow, tasks).

(** *** Leveling *)

(** How the leveling loop ends: with the levels, and whether it left
    through the [break] of the catch-all branch; with the [ValueError] of
    [remaining.remove]; or, for the model only, out of fuel. *)
Inductive leveling :=
| Levels (levels : list (list Task.t)) (catch_all : bool)
| ValueError
| OutOfFuel.

(** The test of the [if]: no dependency of [task] is the id of a task that
    is in [remaining] now. *)
Definition unblocked (task : Task.t) (remaining : list Task.t) : bool :=
  forallb (fun dep => negb (bool_decide (dep ∈ Task.id <$> remaining)))
          (Task.dependencies task).

(** One run of the [for] loop. It walks [snapshot], the copy
    [remaining[:]] taken when the loop starts, and tests each task
    against the list [remaining] as it is at that moment, which shrinks
    while the loop runs. [None] is the [ValueError]. *)
Fixpoint level_pass (snapshot remaining current_level : list Task.t)
    : option (list Task.t * list Task.t) :=
  match snapshot with
  | [] => Some (current_level, remaining)
  | task :: snapshot =>
      if unblocked task remaining then
        match Py.remove task remaining with
        | Some remaining => level_pass snapshot remaining (current_level ++ [task])
        | None => None
        end
      else level_pass snapshot remaining current_level
  end.

(** The [while remaining] loop. *)
Fixpoint level_loop (fuel : nat) (remaining : list Task.t) (levels : list (list Task.t))
    : leveling :=
  match remaining with
  | [] => Levels levels false
  | _ :: _ =>
      match fuel with
      | O => OutOfFuel
      | S fuel =>
          match level_pass remaining remaining [] with
          | None => ValueError
          | Some ([], remaining) => Levels (levels ++ [remaining]) true
          | Some (current_level, remaining) =>
              level_loop fuel remaining (levels ++ [current_level])
          end
      end
  end.

(** The levels of [tasks]; every iteration that does not leave the loop
    removes a task, so [length tasks] iterations are enough. *)
Definition levels_of (tasks : list Task.t) : leveling :=
  level_loop (length tasks) tasks [].

(** An entry of [plan["phases"]]. *)
Record phase := mk_phase {
  phase_number : Z;
  phase_tasks : list string;
  can_run_parallel : bool
}.

(** The [plan] dictionary: these four keys and no other. *)
Record plan := mk_plan {
  total_tasks : Z;
  phases : list phase;
  parallel_tasks : list string;
  critical_path : list string
}.

Definition phases_of (levels : list (list Task.t)) : list phase :=
  imap (fun i level =>
          mk_phase (Z.of_nat i + 1) (Task.description <$> level)
                   (bool_decide (1 < length level)%nat))
       levels.

(** [generate_execution_plan]; [None] when the loop raised. *)
Definition generate_execution_plan (tasks : list Task.t) : option plan :=
  match levels_of tasks with
  | Levels levels _ =>
      Some (mk_plan (Z.of_nat (length tasks)) (phases_of levels) [] [])
  | ValueError | OutOfFuel => None
  end.

(** The index of the phase a task with id [task_id] is in. *)
Definition phase_index (task_id : string) (levels : list (list Task.t)) : option nat :=
  fst <$> list_find (fun level => task_id ∈ Task.id <$> level) levels.

(** *** The workflow order *)

(** [next((t for t in subtasks if t.id == dep_id), None)]. *)
Definition find_task (subtasks : list Task.t) (dep_id : string) : option Task.t :=
  List.find (fun t => bool_decide (Task.id t = dep_id)) subtasks.

(** The local function [add_task] of [create_workflow], on the pair of
    [workflow] and [processed]. [fuel] is the number of nested calls the
    interpreter still allows; [None] is the [RecursionError] it raises when
    there is none left. *)
Fixpoint add_task (fuel : nat) (subtasks : list Task.t) (task : Task.t)
    (state : list Task.t * gset string) : option (list Task.t * gset string) :=
  match fuel with
  | O => None
  | S fuel =>
      if decide (Task.id task ∈ state.2) then Some state
      else
        match
          foldl
            (fun state dep_id =>
               match state with
               | None => None
               | Some state =>
                   match find_task subtasks dep_id with
                   | Some dep_task => add_task fuel subtasks dep_task state
                   | None => Some state
                   end
               end)
            (Some state) (Task.dependencies task)
        with
        | Some (workflow, processed) =>
            Some (workflow ++ [task], {[Task.id task]} ∪ processed)
        | None => None
        end
  end.

(** [create_workflow], with [fuel] nested calls allowed. *)
Definition create_workflow (fuel : nat) (subtasks : list Task.t) : option (list Task.t) :=
  fst <$>
    foldl
      (fun state task =>
         match state with
         | None => None
         | Some state => add_task fuel subtasks task state
         end)
      (Some ([], ∅)) subtasks.

(** *** The duration estimate *)

(** [duration_map], in the order of the dictionary literal. *)
Definition duration_map : list (string * Z) :=
  [("search", 30); ("scrape", 60); ("analyze", 120); ("code", 180);
   ("test", 90); ("write", 150); ("review", 60)].

(** The value of [estimated] after the inner loop, for a lowercased
    description. *)
Definition estimated (desc : string) : Z :=
  match List.find (fun kd => Py.contains kd.1 desc) duration_map with
  | Some kd => kd.2
  | None => 60
  end.

(** [estimate_duration(tasks)["estimated_seconds"]]: the value of
    [total_seconds] after the loop. The two other entries are this number
    divided and rounded as floats. *)
Definition estimated_seconds (tasks : list Task.t) : Z :=
  foldl (fun total_seconds task =>
           total_seconds + estimated (Py.lower (Task.description task)))
        0 tasks.

(** *** Progress *)

(** The dictionary [monitor_progress] returns; the rates, floats in the
    source, are rationals. *)
Record progress := mk_progress {
  progress_total_tasks : Z;
  progress_completed : Z;
  progress_failed : Z;
  progress_in_progress : Z;
  progress_pending : Z;
  completion_rate : Q;
  success_rate : Q
}.

(** [sum(1 for t in tasks if t.status == status)]. *)
Definition count_status (status : string) (tasks : list Task.t) : Z :=
  Z.of_nat (length (List.filter (fun t => bool_decide (Task.status t = status)) tasks)).

Definition monitor_progress (tasks : list Task.t) : progress :=
  let completed := count_status "completed" tasks in
  let failed := count_status "failed" tasks in
  let in_progress := count_status "in_progress" tasks in
  let pending := count_status "pending" tasks in
  mk_progress
    (Z.of_nat (length tasks)) completed failed in_progress pending
    (match tasks with
     | [] => 0%Q
     | _ :: _ => (inject_Z completed / inject_Z (Z.of_nat (length tasks)))%Q
     end)
    (if 0 <? completed + failed
     then (inject_Z completed / inject_Z (completed + failed))%Q
     else 0%Q).

End TaskOrchestratorAgent.

(** ** The vocabulary of the workflow properties *)

Module Workflow.

Import TaskOrchestratorAgent.

(** A task is stuck in [remaining] when one of its dependencies names a task
    of [remaining]. *)
Definition stuck (remaining : list Task.t) (task : Task.t) : Prop :=
  ∃ dep, dep ∈ Task.dependencies task ∧ dep ∈ Task.id <$> remaining.

(** A non-empty set of tasks each of which waits for a task of the set: the
    tasks of a dependency cycle, for instance. *)
Definition blocking (G : list Task.t) : Prop :=
  G ≠ [] ∧ Forall (stuck G) G.

(** Every dependency of a task of [l] is the id of a task that comes
    strictly earlier in [l]. *)
Definition forward (l : list Task.t) : Prop :=
  ∀ i t dep,
    l !! i = Some t → dep ∈ Task.dependencies t →
    ∃ j t', (j < i)%nat ∧ l !! j = Some t' ∧ Task.id t' = dep.

(** The dependency relation of [l], restricted to the tasks of [l], and
    its acyclicity. *)
Definition depends_on (l : list Task.t) (t1 t2 : Task.t) : Prop :=
  t1 ∈ l ∧ t2 ∈ l ∧ Task.id t2 ∈ Task.dependencies t1.

Definition acyclic (l : list Task.t) : Prop :=
  ∀ t, ¬ tc (depends_on l) t t.

(** The order of the result of [assign_priorities]: higher priority first,
    and among equal priorities fewer dependencies first. *)
Definition goes_before (a b : Task.t) : Prop :=
  priority_value (Task.priority b) < priority_value (Task.priority a)
  ∨ (Task.priority a = Task.priority b
     ∧ (length (Task.dependencies a) ≤ length (Task.dependencies b))%nat).

(** What the loop of [assign_priorities] does to the task at position [i] of
    a workflow of [n] tasks. *)
Definition reprioritized (n i : Z) (x : Task.t) : Task.t :=
  if decide (Task.priority x = MEDIUM) then
    if i <? n / 3 then Task.set_priority HIGH x
    else if 2 * n / 3 <? i then Task.set_priority LOW x
    else x
  else x.

End Workflow.

(** ** The vocabulary of the pool properties *)

Module Pool.

(** The pool is a dictionary that files every agent under its own id. *)
Definition well_formed (self : SwarmCoordinator.t) : Prop :=
  NoDup (SwarmCoordinator.agents self).*1
  ∧ ∀ k a, (k, a) ∈ SwarmCoordinator.agents self → BaseAgent.id a = k.

(** The pool is full and none of its agents is idle. *)
Definition saturated (self : SwarmCoordinator.t) : Prop :=
  SwarmCoordinator.max_agents self <= SwarmCoordinator.pool_size self
  ∧ ∀ k a, (k, a) ∈ SwarmCoordinator.agents self → BaseAgent.status a ≠ IDLE.

(** No idle agent of the pool can handle [task]. *)
Definition no_idle_agent_for (self : SwarmCoordinator.t) (task : Task.t) : Prop :=
  ∀ k a, (k, a) ∈ SwarmCoordinator.agents self →
         BaseAgent.status a = IDLE →
         SwarmCoordinator._agent_can_handle_task a task = false.

(** [sub] occurs in [s] as a contiguous substring. *)
Definition substring (sub s : string) : Prop :=
  ∃ before after, s = before +:+ sub +:+ after.

End Pool.

(** ** The vocabulary of runs and loops *)

Module Runs.

Import TaskOrchestratorAgent.

(** The counters of an agent are consistent: none is negative, and the
    average is the total time over the number of completed tasks, or both
    are zero when there is none. *)
Definition metrics_consistent (m : BaseAgent.metrics) : Prop :=
  0 <= BaseAgent.tasks_completed m
  ∧ 0 <= BaseAgent.tasks_failed m
  ∧ (BaseAgent.tasks_completed m = 0 →
     BaseAgent.total_execution_time m = 0%Q ∧ BaseAgent.average_task_time m = 0%Q)
  ∧ (0 < BaseAgent.tasks_completed m →
     BaseAgent.average_task_time m
     = (BaseAgent.total_execution_time m / inject_Z (BaseAgent.tasks_completed m))%Q).

(** The [for dep_id in task.dependencies] loop of [add_task]. *)
Definition visit_dependencies (fuel : nat) (subtasks : list Task.t) (deps : list string)
    (state : option (list Task.t * gset string)) : option (list Task.t * gset string) :=
  foldl
    (fun state dep_id =>
       match state with
       | None => None
       | Some state =>
           match find_task subtasks dep_id with
           | Some dep_task => add_task fuel subtasks dep_task state
           | None => Some state
           end
       end)
    state deps.

(** The [for task in subtasks] loop of [create_workflow]. *)
Definition visit_tasks (fuel : nat) (subtasks : list Task.t) (tasks : list Task.t)
    (state : option (list Task.t * gset string)) : option (list Task.t * gset string) :=
  foldl
    (fun state task =>
       match state with
       | None => None
       | Some state => add_task fuel subtasks task state
       end)
    state tasks.

(** The state of [create_workflow] is in order: [processed] holds the ids of
    [workflow], whose tasks come from [subtasks], each after the tasks of
    [subtasks] it depends on. *)
Definition in_order (subtasks : list Task.t) (state : list Task.t * gset string) : Prop :=
  (∀ x, x ∈ state.2 ↔ x ∈ Task.id <$> state.1)
  ∧ (∀ t, t ∈ state.1 → t ∈ subtasks)
  ∧ (∀ i t dep, state.1 !! i = Some t → dep ∈ Task.dependencies t →
       dep ∈ Task.id <$> subtasks →
       ∃ j t', (j < i)%nat ∧ state.1 !! j = Some t' ∧ Task.id t' = dep).

(** No task of [G] has been processed. *)
Definition untouched (G : list Task.t) (state : list Task.t * gset string) : Prop :=
  ∀ g, g ∈ G → Task.id g ∉ state.2.

End Runs.

(** ** Concrete states used as test inputs *)

Module Examples.

(** An idle research agent, created at time 0. *)
Definition idle_agent : BaseAgent.t :=
  BaseAgent.init "agent-1" "ResearchAgent"
                 (AgentFactory.class_capabilities AgentFactory.researcher) 0.

(** The same agent in the middle of task object 1. *)
Definition busy_agent : BaseAgent.t :=
  BaseAgent.set_status BUSY (BaseAgent.set_current_task (Some 1%nat) idle_agent).

(** A task that failed, and a task that depends on it. *)
Definition failed_task : Task.t :=
  Task.set_status "failed" (Task.new "task-0" 0 "search the archive" MEDIUM [] ∅).

Definition dependent_task : Task.t :=
  Task.new "task-1" 0 "research quantum computing trends" MEDIUM ["task-0"] ∅.

Definition two_tasks : store :=
  <[0%nat := failed_task]> (<[1%nat := dependent_task]> ∅).

Definition running_task : Task.t :=
  Task.set_status "in_progress" (Task.set_assigned_to (Some "agent-1") dependent_task).

Definition two_tasks_running : store :=
  <[0%nat := failed_task]> (<[1%nat := running_task]> ∅).

(** A coordinator with the idle agent in its pool, the failed task filed
    and the dependent task submitted. *)
Definition coordinator_with_queue : SwarmCoordinator.t :=
  SwarmCoordinator.mk [("agent-1", idle_agent)] [1%nat]
                      (<["task-0" := 0%nat]> ∅) (<["task-1" := 1%nat]> ∅) true 100 5 300.

Definition world_with_queue : SwarmCoordinator.world :=
  SwarmCoordinator.mk_world coordinator_with_queue two_tasks [].

(** The coordinator while the dependent task runs. *)
Definition coordinator_running : SwarmCoordinator.t :=
  SwarmCoordinator.mk [("agent-1", busy_agent)] []
                      (<["task-0" := 0%nat]> ∅) (<["task-1" := 1%nat]> ∅) true 100 5 300.

(** A pool with an idle and a busy agent, both created at time 0. *)
Definition busy_agent_2 : BaseAgent.t :=
  BaseAgent.set_status BUSY
    (BaseAgent.set_current_task (Some 1%nat)
       (BaseAgent.init "agent-2" "ResearchAgent"
          (AgentFactory.class_capabilities AgentFactory.researcher) 0)).

Definition coordinator_idle_and_busy : SwarmCoordinator.t :=
  SwarmCoordinator.mk [("agent-1", idle_agent); ("agent-2", busy_agent_2)] []
                      ∅ (<["task-1" := 1%nat]> ∅) true 100 5 300.

(** The first task a fresh coordinator is given, and the system after it
    was submitted and dispatched, with room for one agent. *)
Definition first_task : Task.t :=
  Task.new "task-1" 0 "research quantum computing trends" MEDIUM [] ∅.

Definition world_after_submit : SwarmCoordinator.world :=
  SwarmCoordinator.mk_world
    (SwarmCoordinator.submit_task
       0%nat (SwarmCoordinator.coordinator (SwarmCoordinator.initial 1))
       (<[0%nat := first_task]>
          (SwarmCoordinator.tasks (SwarmCoordinator.initial 1)))).1
    (<[0%nat := first_task]> (SwarmCoordinator.tasks (SwarmCoordinator.initial 1)))
    (SwarmCoordinator.executing (SwarmCoordinator.initial 1)).

Definition world_after_dispatch : SwarmCoordinator.world :=
  SwarmCoordinator._process_task_queue "agent-1" 0 world_after_submit.

(** Two tasks, the second waiting for the first. *)
Definition first : Task.t := Task.new "a" 0 "first" MEDIUM [] ∅.
Definition second : Task.t := Task.new "b" 0 "second" MEDIUM ["a"] ∅.
Definition chain_pair : list Task.t := [first; second].

(** Two tasks waiting for each other, and the same two tasks without
    dependencies. *)
Definition cyclic_pair : list Task.t :=
  [Task.set_dependencies ["b"] first; second].
Definition independent_pair : list Task.t :=
  [first; Task.set_dependencies [] second].

(** Ids "0", "1", ... in the order of the constructor calls. *)
Definition counter_uuid4 (i : nat) : string := pretty i.

(** Three task objects with the default priority. *)
Definition three_medium : store :=
  <[0%nat := Task.new "a" 0 "first" MEDIUM [] ∅]>
    (<[1%nat := Task.new "b" 0 "second" MEDIUM ["a"] ∅]>
       (<[2%nat := Task.new "c" 0 "third" MEDIUM ["b"] ∅]> ∅)).

(** The idle agent after it was given task object 1 and ran it. *)
Definition agent_assigned : BaseAgent.t * store :=
  ((BaseAgent.assign_task idle_agent 1%nat two_tasks).1.1,
   (BaseAgent.assign_task idle_agent 1%nat two_tasks).1.2).

Definition agent_after_run : BaseAgent.t * store :=
  ((BaseAgent.execute_task (Py.Returns (Py.VStr "done")) 2%Q
                           agent_assigned.1 agent_assigned.2).1.1,
   (BaseAgent.execute_task (Py.Returns (Py.VStr "done")) 2%Q
                           agent_assigned.1 agent_assigned.2).1.2).

(** A coordinator with room for one agent, which is busy, and one task
    waiting. *)
Definition full_coordinator : SwarmCoordinator.t :=
  SwarmCoordinator.mk [("agent-1", busy_agent)] [0%nat]
                      ∅ (<["task-0" := 0%nat]> (<["task-1" := 1%nat]> ∅)) true 1 5 300.

Definition full_world : SwarmCoordinator.world :=
  SwarmCoordinator.mk_world full_coordinator two_tasks_running [("agent-1", 1%nat)].

(** A task no keyword of the factory matches, submitted to a fresh
    coordinator. *)
Definition plain_task : Task.t := Task.new "task-2" 0 "Say hello" MEDIUM [] ∅.

Definition plain_world : SwarmCoordinator.world :=
  SwarmCoordinator.mk_world
    (SwarmCoordinator.mk [] [2%nat] ∅ (<["task-2" := 2%nat]> ∅) true 100 5 300)
    (<[2%nat := plain_task]> ∅) [].

(** A cache with one entry. *)
Definition small_cache : list (string * Py.value) := [("a", Py.VNone)].

End Examples.

(** * Properties *)

Import SwarmCoordinator.
Import TaskOrchestratorAgent.
Import Workflow.

(** ** The agent life cycle *)

(** C3: [assign_task] returns true exactly when the agent is idle; on
    success the agent is busy with the task and the task is in progress and
    assigned to the agent; on refusal neither the agent nor any task
    changes. *)
Theorem assign_task_accepts_iff_idle
    (A : BaseAgent.t) (T : loc) (tasks : store) (x : Task.t)
    (A' : BaseAgent.t) (tasks' : store) (ok : bool) :
  tasks !! T = Some x →
  BaseAgent.assign_task A T tasks = (A', tasks', ok) →
  (ok = true ↔ BaseAgent.status A = IDLE)
  ∧ (ok = true →
       BaseAgent.status A' = BUSY
       ∧ BaseAgent.current_task A' = Some T
       ∧ ∃ x', tasks' !! T = Some x'
               ∧ Task.status x' = "in_progress"
               ∧ Task.assigned_to x' = Some (BaseAgent.id A))
  ∧ (ok = false → A' = A ∧ tasks' = tasks).
Proof.
  intros Hx Hrun. unfold BaseAgent.assign_task in Hrun.
  destruct (decide (BaseAgent.status A ≠ IDLE)) as [Hbusy | Hidle];
    inversion Hrun; subst; clear Hrun.
  - split; [split; [discriminate | intros; contradiction] |].
    split; [discriminate | auto].
  - apply dec_stable in Hidle.
    split; [tauto |]. split; [| discriminate].
    intros _. repeat split.
    exists (Task.set_status "in_progress"
              (Task.set_assigned_to (Some (BaseAgent.id A)) x)).
    rewrite !lookup_alter_eq, Hx. auto.
Qed.

Lemma assign_task_accepts_iff_idle_witness :
  Examples.two_tasks !! 1%nat = Some Examples.dependent_task
  ∧ (true = true ↔ BaseAgent.status Examples.idle_agent = IDLE).
Proof.
  split; [reflexivity |].
  exact (proj1 (assign_task_accepts_iff_idle
                  Examples.idle_agent 1%nat Examples.two_tasks Examples.dependent_task
                  _ _ true eq_refl eq_refl)).
Defined.

(** What the failure branch of [execute_task] leaves behind. *)
Lemma execute_task_failed_spec e A T tasks x A' tasks' out :
  tasks !! T = Some x →
  BaseAgent.execute_task_failed e A T tasks = (A', tasks', out) →
  out = Py.Raises e
  ∧ tasks' !! T = Some (Task.set_status "failed" (Task.set_error (Some e) x))
  ∧ BaseAgent.status A' = ERROR
  ∧ BaseAgent.tasks_failed (BaseAgent.performance_metrics A')
    = BaseAgent.tasks_failed (BaseAgent.performance_metrics A) + 1
  ∧ BaseAgent.tasks_completed (BaseAgent.performance_metrics A')
    = BaseAgent.tasks_completed (BaseAgent.performance_metrics A).
Proof.
  intros Hx Hrun. unfold BaseAgent.execute_task_failed in Hrun.
  inversion Hrun; subst; clear Hrun.
  rewrite !lookup_alter_eq, Hx. auto.
Qed.

(** C4: with a current task, [execute_task] either returns the result of the
    task body, and then the task holds the result, is completed at progress
    100, the agent is completed, [tasks_completed] went up by one and the
    average is the total time divided by that counter; or it raises, and then
    the task holds the error and is failed, the agent is in error,
    [tasks_failed] went up by one and the exception reaches the caller. A
    failure of the body always takes the second way, and its success the
    first. *)
Theorem execute_task_updates_task_and_agent
    (A : BaseAgent.t) (T : loc) (tasks : store) (x : Task.t)
    (process_task : Py.outcome Py.value) (execution_time : Q)
    (A' : BaseAgent.t) (tasks' : store) (out : Py.outcome Py.value) :
  BaseAgent.current_task A = Some T →
  tasks !! T = Some x →
  BaseAgent.execute_task process_task execution_time A tasks = (A', tasks', out) →
  let m := BaseAgent.performance_metrics A in
  let m' := BaseAgent.performance_metrics A' in
  (∀ result, out = Py.Returns result →
     (∃ x', tasks' !! T = Some x'
            ∧ Task.result x' = result
            ∧ Task.status x' = "completed"
            ∧ Task.progress x' = 100%Q)
     ∧ BaseAgent.status A' = COMPLETED
     ∧ BaseAgent.tasks_completed m' = BaseAgent.tasks_completed m + 1
     ∧ BaseAgent.total_execution_time m'
       = (BaseAgent.total_execution_time m + execution_time)%Q
     ∧ BaseAgent.average_task_time m'
       = (BaseAgent.total_execution_time m'
          / inject_Z (BaseAgent.tasks_completed m'))%Q)
  ∧ (∀ e, out = Py.Raises e →
       (∃ x', tasks' !! T = Some x'
              ∧ Task.error x' = Some e
              ∧ Task.status x' = "failed")
       ∧ BaseAgent.status A' = ERROR
       ∧ BaseAgent.tasks_failed m' = BaseAgent.tasks_failed m + 1)
  ∧ (∀ e, process_task = Py.Raises e → out = Py.Raises e)
  ∧ (∀ result, process_task = Py.Returns result →
       BaseAgent.tasks_completed m + 1 ≠ 0 → out = Py.Returns result).
Proof.
  intros Hcur Hx Hrun m m'. subst m m'.
  unfold BaseAgent.execute_task in Hrun. rewrite Hcur in Hrun.
  destruct process_task as [result | e].
  - destruct (decide (BaseAgent.tasks_completed (BaseAgent.performance_metrics A) + 1 = 0))
      as [Hzero | Hpos].
    + eapply execute_task_failed_spec in Hrun
        as (-> & Hx' & Hst & Hfail & _);
        [| rewrite !lookup_alter_eq, Hx; reflexivity].
      split; [discriminate |]. split.
      * intros e [= <-]. split; [eauto |]. split; [exact Hst | exact Hfail].
      * split; [discriminate |]. intros r _ Hne. contradiction.
    + inversion Hrun; subst; clear Hrun. split.
      * intros r [= <-]. split.
        { eexists. rewrite !lookup_alter_eq, Hx. simpl. eauto. }
        simpl. auto.
      * split; [discriminate |]. split; [discriminate |].
        intros r [= <-] _. reflexivity.
  - eapply execute_task_failed_spec in Hrun as (-> & Hx' & Hst & Hfail & _);
      [| exact Hx].
    split; [discriminate |]. split.
    + intros e' [= <-]. split; [eauto |]. auto.
    + split; [intros e' [= <-]; reflexivity | discriminate].
Qed.

Lemma execute_task_updates_task_and_agent_witness :
  BaseAgent.status
    (BaseAgent.execute_task (Py.Returns (Py.VStr "done")) 2%Q
                            Examples.busy_agent Examples.two_tasks_running).1.1
  = COMPLETED.
Proof.
  pose proof (execute_task_updates_task_and_agent
                Examples.busy_agent 1%nat Examples.two_tasks_running Examples.running_task
                (Py.Returns (Py.VStr "done")) 2%Q _ _ _ eq_refl eq_refl eq_refl) as H.
  exact (proj1 (proj2 (proj1 H (Py.VStr "done") eq_refl))).
Defined.

(** ** The coordinator: dispatch and completion *)

(** A constructed agent starts idle. *)
Lemma construct_idle k uuid now a :
  AgentFactory.construct k uuid now = Py.Returns a → BaseAgent.status a = IDLE.
Proof. destruct k; simpl; intros [= <-] || discriminate; reflexivity. Qed.

Lemma construct_id k uuid now a :
  AgentFactory.construct k uuid now = Py.Returns a → BaseAgent.id a = uuid.
Proof. destruct k; simpl; intros [= <-] || discriminate; reflexivity. Qed.

(** The agent [_get_suitable_agent] hands out is idle and, afterwards, in the
    pool under the returned key. *)
Lemma get_suitable_agent_idle self task uuid now self' k a :
  _get_suitable_agent self task uuid now = (self', Py.Returns (Some (k, a))) →
  BaseAgent.status a = IDLE.
Proof.
  unfold _get_suitable_agent. intros H.
  destruct (List.find _ (agents self)) as [ka |] eqn:Hfind.
  - inversion H; subst. apply find_some in Hfind as [_ Hp].
    apply andb_prop in Hp as [Hp _]. apply bool_decide_eq_true in Hp. exact Hp.
  - destruct (pool_size self <? max_agents self); [| discriminate].
    unfold AgentFactory.create_agent_for_task in H.
    destruct (AgentFactory.agent_type_for _) as [ty |]; [| discriminate].
    destruct (AgentFactory.construct ty uuid now) as [a0 |] eqn:Hc; [| discriminate].
    inversion H; subst. eapply construct_idle; eauto.
Qed.

(** [_get_suitable_agent] reads the description of the task and nothing
    else. *)
Lemma get_suitable_agent_description self x y uuid now :
  Task.description x = Task.description y →
  _get_suitable_agent self x uuid now = _get_suitable_agent self y uuid now.
Proof.
  intros Hd. unfold _get_suitable_agent, _agent_can_handle_task,
    AgentFactory.create_agent_for_task. rewrite Hd. reflexivity.
Qed.

(** [execute_task] on the current task: the task object keeps its id and the
    agent ends completed or in error, with the matching outcome. *)
Lemma execute_task_outcome process_task execution_time A T tasks x A' tasks' out :
  BaseAgent.current_task A = Some T →
  tasks !! T = Some x →
  BaseAgent.execute_task process_task execution_time A tasks = (A', tasks', out) →
  (∃ x', tasks' !! T = Some x' ∧ Task.id x' = Task.id x)
  ∧ ((∃ r, out = Py.Returns r) ∧ BaseAgent.status A' = COMPLETED
     ∨ (∃ e, out = Py.Raises e) ∧ BaseAgent.status A' = ERROR).
Proof.
  intros Hcur Hx. unfold BaseAgent.execute_task, BaseAgent.execute_task_failed.
  rewrite Hcur. destruct process_task as [r | e]; [case_decide |];
    intros [= <- <- <-]; rewrite !lookup_alter_eq, Hx; simpl; eauto 10.
Qed.

Lemma lookup_total_Some (tasks : store) (l : loc) (x : Task.t) :
  tasks !! l = Some x → tasks !!! l = x.
Proof. intros H. unfold lookup_total, map_lookup_total. rewrite H. reflexivity. Qed.

(** C2, as the code has it: when the execution of a dispatched task ends, in
    success or in failure, the coordinator files the task under its id in
    [completed_tasks] and drops it from [active_tasks]; the agent is left as
    [execute_task] left it: completed when [execute_task] returned a result
    and in error when it raised, so never idle; and [_get_suitable_agent],
    which only hands out idle agents, does not hand it out. *)
Theorem execute_agent_task_records_completion
    (agent : BaseAgent.t) (T : loc) (self : SwarmCoordinator.t) (tasks : store)
    (x : Task.t) (process_task : Py.outcome Py.value) (execution_time : Q)
    (agent' : BaseAgent.t) (self' : SwarmCoordinator.t) (tasks' : store) :
  BaseAgent.current_task agent = Some T →
  tasks !! T = Some x →
  _execute_agent_task process_task execution_time agent T self tasks
  = (agent', self', tasks') →
  completed_tasks self' = <[Task.id x := T]> (completed_tasks self)
  ∧ active_tasks self' = delete (Task.id x) (active_tasks self)
  ∧ agents self' = agents self
  ∧ agent' = (BaseAgent.execute_task process_task execution_time agent tasks).1.1
  ∧ (BaseAgent.status agent' = COMPLETED ∨ BaseAgent.status agent' = ERROR)
  ∧ (∀ result,
       (BaseAgent.execute_task process_task execution_time agent tasks).2
       = Py.Returns result →
       BaseAgent.status agent' = COMPLETED)
  ∧ (∀ e,
       (BaseAgent.execute_task process_task execution_time agent tasks).2 = Py.Raises e →
       BaseAgent.status agent' = ERROR)
  ∧ (∀ e, process_task = Py.Raises e → BaseAgent.status agent' = ERROR)
  ∧ (∀ c task uuid now c' k a,
       _get_suitable_agent c task uuid now = (c', Py.Returns (Some (k, a))) →
       a ≠ agent').
Proof.
  intros Hcur Hx Hrun. unfold _execute_agent_task in Hrun.
  assert (Hbody : ∀ e, process_task = Py.Raises e →
            (BaseAgent.execute_task process_task execution_time agent tasks).2
            = Py.Raises e).
  { intros e ->. unfold BaseAgent.execute_task. rewrite Hcur. reflexivity. }
  destruct (BaseAgent.execute_task process_task execution_time agent tasks)
    as [[A1 tasks1] out] eqn:Hexec.
  destruct (execute_task_outcome _ _ _ _ _ _ _ _ _ Hcur Hx Hexec)
    as [(x1 & Hx1 & Hid) Hstatus].
  assert (Hfinal : BaseAgent.status A1 = COMPLETED ∨ BaseAgent.status A1 = ERROR)
    by (destruct Hstatus as [[_ ?] | [_ ?]]; auto).
  assert (Hok : ∀ result, out = Py.Returns result → BaseAgent.status A1 = COMPLETED).
  { intros result ->. destruct Hstatus as [[_ ?] | [[e He] _]]; [assumption | discriminate]. }
  assert (Herr : ∀ e, out = Py.Raises e → BaseAgent.status A1 = ERROR).
  { intros e ->. destruct Hstatus as [[[r Hr] _] | [_ ?]]; [discriminate | assumption]. }
  simpl in Hbody.
  destruct out as [r | e]; inversion Hrun; subst; clear Hrun;
    (erewrite lookup_total_Some by (rewrite lookup_alter_eq, Hx1; reflexivity));
    simpl; rewrite Hid;
    (split; [reflexivity |]); (split; [reflexivity |]); (split; [reflexivity |]);
    (split; [reflexivity |]); (split; [exact Hfinal |]); (split; [exact Hok |]);
    (split; [exact Herr |]);
    (split; [intros e' He'; apply (Herr e'), (Hbody e' He') |]);
    intros c task uuid now c' k a Hget ->;
    apply get_suitable_agent_idle in Hget; destruct Hfinal; congruence.
Qed.

Lemma execute_agent_task_records_completion_witness :
  completed_tasks
    (_execute_agent_task (Py.Returns (Py.VStr "done")) 2%Q Examples.busy_agent 1%nat
                         Examples.coordinator_running Examples.two_tasks_running).1.2
  = <["task-1" := 1%nat]> (completed_tasks Examples.coordinator_running).
Proof.
  exact (proj1 (execute_agent_task_records_completion
                  Examples.busy_agent 1%nat Examples.coordinator_running
                  Examples.two_tasks_running Examples.running_task
                  (Py.Returns (Py.VStr "done")) 2%Q _ _ _ eq_refl eq_refl eq_refl)).
Defined.

(** C2 as stated fails: after a successful execution the agent is completed,
    not idle. *)
Lemma agent_not_idle_after_execution :
  BaseAgent.status
    (_execute_agent_task (Py.Returns (Py.VStr "done")) 2%Q Examples.busy_agent 1%nat
                         Examples.coordinator_running Examples.two_tasks_running).1.1
  = COMPLETED
  ∧ BaseAgent.status
      (_execute_agent_task (Py.Returns (Py.VStr "done")) 2%Q Examples.busy_agent 1%nat
                           Examples.coordinator_running Examples.two_tasks_running).1.1
    ≠ IDLE.
Proof. split; [reflexivity | discriminate]. Qed.

(** C1, as the code has it: the dispatch loop never reads [dependencies].
    For the task at the head of the queue, the agent it gets does not depend
    on the task's dependencies; when it gets one, the task is assigned to it
    and moves to in_progress whatever the status of the tasks it depends on;
    and an iteration marks no task failed. *)
Theorem dispatch_does_not_read_dependencies
    (uuid : string) (now : Z) (w : world) (T : loc) (queue : list loc) (x : Task.t) :
  task_queue (coordinator w) = T :: queue →
  tasks w !! T = Some x →
  (∀ ds,
     _get_suitable_agent (set_task_queue queue (coordinator w))
                         (Task.set_dependencies ds x) uuid now
     = _get_suitable_agent (set_task_queue queue (coordinator w)) x uuid now)
  ∧ (∀ self' k a,
       _get_suitable_agent (set_task_queue queue (coordinator w)) x uuid now
       = (self', Py.Returns (Some (k, a))) →
       tasks (_process_task_queue uuid now w) !! T
       = Some (Task.set_status "in_progress"
                 (Task.set_assigned_to (Some (BaseAgent.id a)) x))
       ∧ (k, T) ∈ executing (_process_task_queue uuid now w))
  ∧ (∀ l y,
       tasks (_process_task_queue uuid now w) !! l = Some y →
       Task.status y = "failed" →
       tasks w !! l = Some y).
Proof.
  intros Hq Hx. split; [| split].
  - intros ds. apply get_suitable_agent_description. reflexivity.
  - intros self' k a Hget. unfold _process_task_queue.
    rewrite Hq, (lookup_total_Some _ _ _ Hx), Hget.
    pose proof (get_suitable_agent_idle _ _ _ _ _ _ _ Hget) as Hidle.
    unfold BaseAgent.assign_task.
    destruct (decide (BaseAgent.status a ≠ IDLE)) as [Hne | _]; [contradiction |].
    simpl. rewrite !lookup_alter_eq, Hx. split; [reflexivity |].
    apply elem_of_app. right. apply list_elem_of_singleton. reflexivity.
  - intros l y. unfold _process_task_queue.
    rewrite Hq, (lookup_total_Some _ _ _ Hx).
    destruct (_get_suitable_agent _ x uuid now) as [self' [[[k a] |] | e]] eqn:Hget;
      simpl; auto.
    pose proof (get_suitable_agent_idle _ _ _ _ _ _ _ Hget) as Hidle.
    unfold BaseAgent.assign_task.
    destruct (decide (BaseAgent.status a ≠ IDLE)) as [Hne | _]; [contradiction |].
    simpl. destruct (decide (l = T)) as [-> | Hl].
    + rewrite !lookup_alter_eq, Hx. intros [= <-]. discriminate.
    + rewrite !lookup_alter_ne by congruence. auto.
Qed.

Lemma dispatch_does_not_read_dependencies_witness :
  tasks (_process_task_queue "agent-2" 1 Examples.world_with_queue) !! 1%nat
  = Some (Task.set_status "in_progress"
            (Task.set_assigned_to (Some "agent-1") Examples.dependent_task)).
Proof.
  exact (proj1 (proj1 (proj2 (dispatch_does_not_read_dependencies
                  "agent-2" 1 Examples.world_with_queue 1%nat [] Examples.dependent_task
                  eq_refl eq_refl))
                 _ "agent-1" Examples.idle_agent eq_refl)).
Defined.

(** C1 as stated fails: a task whose only dependency has failed is
    dispatched and is in progress afterwards. *)
Lemma dependent_of_failed_task_is_dispatched :
  Task.dependencies Examples.dependent_task = ["task-0"]
  ∧ completed_tasks (coordinator Examples.world_with_queue) !! "task-0" = Some 0%nat
  ∧ Task.status <$> tasks Examples.world_with_queue !! 0%nat = Some "failed"
  ∧ Task.status <$> tasks Examples.world_with_queue !! 1%nat = Some "pending"
  ∧ Task.status
      <$> tasks (_process_task_queue "agent-2" 1 Examples.world_with_queue) !! 1%nat
    = Some "in_progress"
  ∧ executing (_process_task_queue "agent-2" 1 Examples.world_with_queue)
    = [("agent-1", 1%nat)].
Proof. repeat split. Qed.

(** ** Insertion-ordered dictionaries *)

Section Dict.
Context {V : Type}.
Implicit Types (k : string) (v : V) (d : list (string * V)).

Lemma dict_set_keys k v d :
  (Py.dict_set k v d).*1 = if decide (k ∈ d.*1) then d.*1 else d.*1 ++ [k].
Proof.
  induction d as [| [k' v'] d IH]; [reflexivity |].
  cbn [Py.dict_set]. destruct (decide (k' = k)) as [-> | Hne];
    rewrite !fmap_cons; cbn [fst].
  - rewrite decide_True by left. reflexivity.
  - rewrite IH. destruct (decide (k ∈ d.*1)) as [Hin | Hout].
    + rewrite decide_True by (right; exact Hin). reflexivity.
    + rewrite decide_False; [reflexivity |].
      intros Hin. apply elem_of_cons in Hin as [-> | Hin]; contradiction.
Qed.

Lemma dict_set_length_le k v d :
  (length (Py.dict_set k v d) ≤ S (length d))%nat.
Proof.
  rewrite <- (length_fmap fst (Py.dict_set k v d)), dict_set_keys.
  case_decide; rewrite ?length_app, !length_fmap; simpl; lia.
Qed.

Lemma dict_set_length_mem k v d :
  k ∈ d.*1 → length (Py.dict_set k v d) = length d.
Proof.
  intros Hin. rewrite <- (length_fmap fst (Py.dict_set k v d)), dict_set_keys.
  rewrite decide_True by exact Hin. apply length_fmap.
Qed.

Lemma dict_set_length_fresh k v d :
  k ∉ d.*1 → length (Py.dict_set k v d) = S (length d).
Proof.
  intros Hout. rewrite <- (length_fmap fst (Py.dict_set k v d)), dict_set_keys.
  rewrite decide_False by exact Hout. rewrite length_app, length_fmap. simpl. lia.
Qed.

Lemma dict_set_key_elem k v d : k ∈ (Py.dict_set k v d).*1.
Proof.
  rewrite dict_set_keys. case_decide; [assumption |].
  apply elem_of_app. right. left.
Qed.

Lemma dict_get_Some_elem k v d : Py.dict_get k d = Some v → (k, v) ∈ d.
Proof.
  induction d as [| [k' v'] d IH]; simpl; [discriminate |].
  case_decide as Hk.
  - intros [= <-]. subst. left.
  - intros H. right. auto.
Qed.

Lemma dict_get_elem k v d : NoDup d.*1 → (k, v) ∈ d → Py.dict_get k d = Some v.
Proof.
  induction d as [| [k' v'] d IH]; simpl; intros Hnd Hin; [inversion Hin |].
  apply NoDup_cons in Hnd as [Hfresh Hnd].
  apply elem_of_cons in Hin as [[= <- <-] | Hin].
  - rewrite decide_True by reflexivity. reflexivity.
  - case_decide as Hk; [| auto]. subst. exfalso. apply Hfresh.
    apply (list_elem_of_fmap_2 fst) in Hin. exact Hin.
Qed.

Lemma dict_del_elem k k' v d :
  NoDup d.*1 → (k', v) ∈ Py.dict_del k d ↔ (k', v) ∈ d ∧ k' ≠ k.
Proof.
  induction d as [| [k0 v0] d IH]; simpl; intros Hnd.
  - split; [intros H; inversion H | intros [H _]; inversion H].
  - apply NoDup_cons in Hnd as [Hfresh Hnd]. case_decide as Hk.
    + subst. split.
      * intros Hin. split; [right; exact Hin |]. intros ->. apply Hfresh.
        apply (list_elem_of_fmap_2 fst) in Hin. exact Hin.
      * intros [Hin Hne]. apply elem_of_cons in Hin as [[= -> ->] | Hin];
          [contradiction | exact Hin].
    + rewrite !elem_of_cons, IH by exact Hnd. split.
      * intros [[= -> ->] | [Hin Hne]]; auto.
      * intros [[[= -> ->] | Hin] Hne]; auto.
Qed.

Lemma dict_del_sublist k d : Py.dict_del k d `sublist_of` d.
Proof.
  induction d as [| [k0 v0] d IH]; simpl; [constructor |].
  case_decide; [apply sublist_cons | apply sublist_skip]; [reflexivity | exact IH].
Qed.

Lemma dict_del_NoDup k d : NoDup d.*1 → NoDup (Py.dict_del k d).*1.
Proof.
  intros Hnd. eapply sublist_NoDup; [exact Hnd |].
  apply fmap_sublist, dict_del_sublist.
Qed.

Lemma dict_del_length k d : (length (Py.dict_del k d) ≤ length d)%nat.
Proof. apply sublist_length, dict_del_sublist. Qed.

Lemma dict_set_NoDup k v d : NoDup d.*1 → NoDup (Py.dict_set k v d).*1.
Proof.
  intros Hnd. rewrite dict_set_keys. case_decide as Hin; [exact Hnd |].
  apply NoDup_app. split; [exact Hnd |]. split.
  - intros x Hx Hx'. apply list_elem_of_singleton in Hx'. subst. contradiction.
  - apply NoDup_singleton.
Qed.

Lemma filter_keys_NoDup (f : string * V → bool) d :
  NoDup d.*1 → NoDup (List.filter f d).*1.
Proof.
  intros Hnd. eapply sublist_NoDup; [exact Hnd |]. apply fmap_sublist. clear Hnd.
  induction d as [| x d IH]; simpl; [constructor |].
  destruct (f x); [apply sublist_skip | apply sublist_cons]; exact IH.
Qed.

Lemma elem_of_filter_bool (f : string * V → bool) d x :
  x ∈ List.filter f d ↔ x ∈ d ∧ f x = true.
Proof. rewrite !list_elem_of_In. apply filter_In. Qed.

End Dict.

(** ** The monitoring sweep *)

Lemma idle_timed_out_true self current_time a :
  idle_timed_out self current_time a = true
  ↔ BaseAgent.status a = IDLE
    ∧ idle_timeout self * 1000000 < current_time - BaseAgent.last_heartbeat a.
Proof.
  unfold idle_timed_out.
  rewrite andb_true_iff, bool_decide_eq_true, Z.ltb_lt. reflexivity.
Qed.

Lemma elem_of_agents_to_remove self current_time k :
  k ∈ agents_to_remove self current_time
  ↔ ∃ a, (k, a) ∈ agents self ∧ idle_timed_out self current_time a = true.
Proof.
  unfold agents_to_remove. rewrite list_elem_of_fmap. split.
  - intros ([k' a] & -> & Hin). apply elem_of_filter_bool in Hin as [Hin Hp]. eauto.
  - intros (a & Hin & Hp). exists (k, a). split; [reflexivity |].
    apply elem_of_filter_bool. auto.
Qed.

(** The removal loop over distinct keys of the pool deletes exactly these
    keys and terminates exactly their agents. *)
Lemma remove_agents_spec ids :
  ∀ pool acc pool' removed,
    NoDup pool.*1 → NoDup ids → (∀ k, k ∈ ids → k ∈ pool.*1) →
    remove_agents ids pool acc = (pool', removed) →
    (∀ k a, (k, a) ∈ pool' ↔ (k, a) ∈ pool ∧ k ∉ ids)
    ∧ (∀ k r, (k, r) ∈ removed
              ↔ (k, r) ∈ acc ∨ ∃ a, k ∈ ids ∧ (k, a) ∈ pool ∧ r = BaseAgent.terminate a)
    ∧ (length pool' ≤ length pool)%nat.
Proof.
  induction ids as [| k0 ids IH]; intros pool acc pool' removed Hnd Hids Hsub Hrun.
  - simpl in Hrun. inversion Hrun; subst. split; [| split; [| lia]].
    + intros k a. split; [intros H; split; [exact H | intros Hk; inversion Hk] | tauto].
    + intros k r. split; [auto |]. intros [H | (a & Hk & _)]; [exact H | inversion Hk].
  - apply NoDup_cons in Hids as [Hk0 Hids].
    assert (Hin0 : k0 ∈ pool.*1) by (apply Hsub; left).
    apply list_elem_of_fmap in Hin0 as ([k0' a0] & Heq & Hin0). simpl in Heq. subst k0'.
    simpl in Hrun. rewrite (dict_get_elem _ _ _ Hnd Hin0) in Hrun.
    assert (Hsub' : ∀ k, k ∈ ids → k ∈ (Py.dict_del k0 pool).*1).
    { intros k Hk. assert (Hin : k ∈ pool.*1) by (apply Hsub; right; exact Hk).
      apply list_elem_of_fmap in Hin as ([k' a] & Heq & Hin). simpl in Heq. subst k'.
      apply (list_elem_of_fmap_2' fst _ (k, a)); [| reflexivity].
      apply dict_del_elem; [exact Hnd |]. split; [exact Hin |].
      intros ->. contradiction. }
    apply IH in Hrun as (Hpool & Hrem & Hlen);
      [| apply dict_del_NoDup; exact Hnd | exact Hids | exact Hsub'].
    split; [| split].
    + intros k a. rewrite Hpool, dict_del_elem, elem_of_cons by exact Hnd. tauto.
    + intros k r. rewrite Hrem, elem_of_app, list_elem_of_singleton. split.
      * intros [[H | [= -> ->]] | (a & Hk & Hin & ->)]; [auto | |].
        -- right. exists a0. split; [left | auto].
        -- apply dict_del_elem in Hin as [Hin _]; [| exact Hnd].
           right. exists a. split; [right; exact Hk | auto].
      * intros [H | (a & Hk & Hin & ->)]; [auto |].
        apply elem_of_cons in Hk as [-> | Hk].
        -- left. right. do 2 f_equal.
           pose proof (dict_get_elem _ _ _ Hnd Hin) as H1.
           rewrite (dict_get_elem _ _ _ Hnd Hin0) in H1. congruence.
        -- right. exists a. split; [exact Hk |]. split; [| reflexivity].
           apply dict_del_elem; [exact Hnd |]. split; [exact Hin |].
           intros ->. contradiction.
    + pose proof (dict_del_length k0 pool). lia.
Qed.

(** C9: a monitoring sweep at [current_time] removes an agent of the pool
    exactly when it is idle and its heartbeat is older than the idle timeout,
    and these are exactly the agents it terminates: every agent it removed
    is an agent of the pool whose status is now [TERMINATED]; a busy agent
    stays in the pool, busy and not terminated, whatever its heartbeat; the
    sweep adds nothing to the pool and changes no agent it leaves there. *)
Theorem monitor_removes_exactly_idle_timed_out
    (self : SwarmCoordinator.t) (current_time : Z)
    (self' : SwarmCoordinator.t) (removed : list (string * BaseAgent.t)) :
  NoDup (agents self).*1 →
  _monitor_agents current_time self = (self', removed) →
  (∀ k a, (k, a) ∈ agents self →
     ((k, a) ∉ agents self'
      ↔ BaseAgent.status a = IDLE
        ∧ idle_timeout self * 1000000 < current_time - BaseAgent.last_heartbeat a)
     ∧ ((k, BaseAgent.terminate a) ∈ removed
        ↔ BaseAgent.status a = IDLE
          ∧ idle_timeout self * 1000000 < current_time - BaseAgent.last_heartbeat a)
     ∧ (BaseAgent.status a = BUSY → (k, a) ∈ agents self' ∧ k ∉ removed.*1))
  ∧ (∀ k a, (k, a) ∈ agents self' → (k, a) ∈ agents self)
  ∧ (∀ k r, (k, r) ∈ removed →
       BaseAgent.status r = TERMINATED
       ∧ ∃ a, (k, a) ∈ agents self
              ∧ BaseAgent.status a = IDLE
              ∧ idle_timeout self * 1000000 < current_time - BaseAgent.last_heartbeat a
              ∧ r = BaseAgent.terminate a).
Proof.
  intros Hnd Hrun. unfold _monitor_agents in Hrun.
  destruct (remove_agents _ _ _) as [pool' removed'] eqn:Hloop.
  inversion Hrun; subst; clear Hrun. simpl.
  assert (Hsub : ∀ k, k ∈ agents_to_remove self current_time → k ∈ (agents self).*1).
  { intros k Hk. apply elem_of_agents_to_remove in Hk as (a & Hin & _).
    apply (list_elem_of_fmap_2' fst _ (k, a)); auto. }
  apply remove_agents_spec in Hloop as (Hpool & Hrem & _);
    [| exact Hnd | apply filter_keys_NoDup; exact Hnd | exact Hsub].
  assert (Hsel : ∀ k a, (k, a) ∈ agents self →
            (k ∈ agents_to_remove self current_time
             ↔ idle_timed_out self current_time a = true)).
  { intros k a Hin. rewrite elem_of_agents_to_remove. split.
    - intros (a' & Hin' & Hp).
      pose proof (dict_get_elem _ _ _ Hnd Hin) as H1.
      rewrite (dict_get_elem _ _ _ Hnd Hin') in H1. congruence.
    - eauto. }
  split; [| split; [intros k a Hin; apply Hpool in Hin; tauto |]].
  2: { intros k r Hr. apply Hrem in Hr as [H | (a & Hk & Hin & ->)]; [inversion H |].
       split; [reflexivity |]. exists a. split; [exact Hin |].
       apply (Hsel k a Hin), idle_timed_out_true in Hk as [Hidle Hold]. auto. }
  intros k a Hin. pose proof (Hsel k a Hin) as Hk.
  rewrite <- idle_timed_out_true. split; [| split].
  - rewrite Hpool. split.
    + intros Hout. apply Hk. destruct (decide (k ∈ agents_to_remove self current_time));
        [assumption | exfalso; apply Hout; auto].
    + intros Hp [_ Hout]. apply Hout, Hk, Hp.
  - rewrite Hrem. split.
    + intros [H | (a1 & Hk1 & _)]; [inversion H | apply Hk, Hk1].
    + intros Hp. right. exists a. split; [apply Hk, Hp | auto].
  - intros Hbusy.
    assert (Hnot : k ∉ agents_to_remove self current_time).
    { intros Hsel'. apply Hk, idle_timed_out_true in Hsel' as [Hidle _]. congruence. }
    split; [apply Hpool; auto |].
    intros Hkr. apply list_elem_of_fmap in Hkr as ([k' r] & Heq & Hkr).
    simpl in Heq. subst k'. apply Hrem in Hkr as [H | (a1 & Hk1 & _)];
      [inversion H | contradiction].
Qed.

Lemma monitor_removes_exactly_idle_timed_out_witness :
  (("agent-1", Examples.idle_agent)
     ∉ agents (_monitor_agents 301000000 Examples.coordinator_idle_and_busy).1)
  ∧ (("agent-2", Examples.busy_agent_2)
     ∈ agents (_monitor_agents 301000000 Examples.coordinator_idle_and_busy).1).
Proof.
  assert (Hnd : NoDup (agents Examples.coordinator_idle_and_busy).*1).
  { apply (bool_decide_unpack _). vm_compute. exact I. }
  pose proof (monitor_removes_exactly_idle_timed_out
                Examples.coordinator_idle_and_busy 301000000 _ _ Hnd eq_refl) as [H _].
  split.
  - apply (H "agent-1" Examples.idle_agent); [left |].
    split; [reflexivity | vm_compute; reflexivity].
  - apply (H "agent-2" Examples.busy_agent_2); [right; left | reflexivity].
Defined.

(** ** The size of the pool *)

(** [_get_suitable_agent] adds at most one agent, only below [max_agents],
    and the key it returns is in the pool afterwards. *)
Lemma get_suitable_agent_pool self task uuid now self' out :
  _get_suitable_agent self task uuid now = (self', out) →
  max_agents self' = max_agents self
  ∧ task_queue self' = task_queue self
  ∧ (agents self' = agents self
     ∨ pool_size self < max_agents self ∧ pool_size self' <= pool_size self + 1)
  ∧ (∀ k a, out = Py.Returns (Some (k, a)) → k ∈ (agents self').*1).
Proof.
  unfold _get_suitable_agent. intros H.
  destruct (List.find _ (agents self)) as [[k0 a0] |] eqn:Hfind.
  - inversion H; subst. repeat split; auto.
    intros k a [= -> ->]. apply find_some in Hfind as [Hin _].
    apply list_elem_of_In in Hin. apply (list_elem_of_fmap_2' fst _ (k, a)); auto.
  - destruct (pool_size self <? max_agents self) eqn:Hlt.
    + apply Z.ltb_lt in Hlt.
      destruct (AgentFactory.create_agent_for_task task uuid now) as [[a |] | e];
        inversion H; subst; simpl; repeat split; auto; try discriminate.
      * right. split; [exact Hlt |]. unfold pool_size. simpl.
        pose proof (dict_set_length_le (BaseAgent.id a) a (agents self)). lia.
      * intros k a' [= <- <-]. apply dict_set_key_elem.
    + inversion H; subst. repeat split; auto. discriminate.
Qed.

Lemma create_agents_S n i uuid4 now pool :
  create_agents (S n) i uuid4 now pool
  = create_agents n (S i) uuid4 now
      (Py.dict_set (uuid4 i)
         (BaseAgent.init (uuid4 i) "ResearchAgent"
            (AgentFactory.class_capabilities AgentFactory.researcher) (now i))
         pool).
Proof. reflexivity. Qed.

Lemma create_agents_length_le n :
  ∀ i uuid4 now pool,
    (length (create_agents n i uuid4 now pool) ≤ length pool + n)%nat.
Proof.
  induction n as [| n IH]; intros i uuid4 now pool; [simpl; lia |].
  rewrite create_agents_S. etransitivity; [apply IH |].
  pose proof (dict_set_length_le (uuid4 i)
                (BaseAgent.init (uuid4 i) "ResearchAgent"
                   (AgentFactory.class_capabilities AgentFactory.researcher) (now i))
                pool).
  lia.
Qed.

(** With fresh, distinct ids every constructor call of the loop adds an
    agent. *)
Lemma create_agents_length_fresh n :
  ∀ i uuid4 now pool,
    Inj (=) (=) uuid4 →
    (∀ j, (i ≤ j)%nat → uuid4 j ∉ pool.*1) →
    length (create_agents n i uuid4 now pool) = (length pool + n)%nat.
Proof.
  induction n as [| n IH]; intros i uuid4 now pool Hinj Hfresh; [simpl; lia |].
  rewrite create_agents_S, IH; [| exact Hinj |].
  - rewrite dict_set_length_fresh by (apply Hfresh; lia). lia.
  - intros j Hj. rewrite dict_set_keys, decide_False by (apply Hfresh; lia).
    intros Hin. apply elem_of_app in Hin as [Hin | Hin].
    + revert Hin. apply Hfresh. lia.
    + apply list_elem_of_singleton, Hinj in Hin. lia.
Qed.

Lemma auto_scale_bounded uuid4 now self :
  pool_size self <= max_agents self →
  pool_size (_auto_scale uuid4 now self) <= max_agents (_auto_scale uuid4 now self)
  ∧ max_agents (_auto_scale uuid4 now self) = max_agents self.
Proof.
  intros Hle. unfold _auto_scale.
  destruct (_ && _) eqn:Hcond; [| auto].
  apply andb_prop in Hcond as [_ Hlt]. apply Z.ltb_lt in Hlt.
  simpl. split; [| reflexivity]. unfold pool_size in *. simpl.
  pose proof (create_agents_length_le (Z.to_nat (num_to_create self)) 0 uuid4 now
                                      (agents self)) as Hlen.
  unfold num_to_create, pool_size in *. lia.
Qed.

(** Every step keeps the pool within [max_agents] and leaves [max_agents]
    as it is. *)
Lemma step_pool_bounded w w' :
  step w w' →
  pool_size (coordinator w) <= max_agents (coordinator w) →
  pool_size (coordinator w') <= max_agents (coordinator w')
  ∧ max_agents (coordinator w') = max_agents (coordinator w).
Proof.
  intros Hstep Hle. destruct Hstep; simpl.
  - auto.
  - unfold _process_task_queue. destruct (task_queue (coordinator w)) as [| task queue];
      [auto |].
    destruct (_get_suitable_agent _ _ uuid now) as [self' out] eqn:Hget.
    apply get_suitable_agent_pool in Hget as (Hmax & _ & Hsize & Hkey). simpl in *.
    assert (Hle' : pool_size self' <= max_agents self').
    { rewrite Hmax. destruct Hsize as [Heq | [? ?]]; [| lia].
      unfold pool_size in *. rewrite Heq. simpl. exact Hle. }
    destruct out as [[[k a] |] | e]; simpl; auto.
    destruct (BaseAgent.assign_task a task (tasks w)) as [[a' tasks'] ok]. simpl.
    split; [| exact Hmax]. unfold pool_size in *. simpl.
    rewrite dict_set_length_mem by (eapply Hkey; reflexivity). exact Hle'.
  - unfold finish_execution. destruct (executing w !! i) as [[k task] |]; [| auto].
    destruct (Py.dict_get k (agents (coordinator w))) as [agent |] eqn:Hk; [| auto].
    destruct (_execute_agent_task _ _ agent task _ _) as [[agent' self'] tasks'] eqn:Hrun.
    unfold _execute_agent_task in Hrun.
    destruct (BaseAgent.execute_task _ _ agent (tasks w)) as [[a1 t1] [r | e]];
      inversion Hrun; subst; simpl; unfold pool_size in *; simpl;
      (rewrite dict_set_length_mem;
       [auto | apply dict_get_Some_elem in Hk;
               apply (list_elem_of_fmap_2' fst _ (k, agent)); auto]).
  - unfold _monitor_agents.
    destruct (remove_agents _ _ _) as [pool' removed] eqn:Hloop. simpl.
    split; [| reflexivity]. unfold pool_size in *. simpl.
    assert (length pool' ≤ length (agents (coordinator w)))%nat; [| lia].
    clear Hle. revert Hloop. generalize (agents (coordinator w)).
    generalize (@nil (string * BaseAgent.t)).
    induction (agents_to_remove (coordinator w) current_time) as [| k ids IH];
      intros acc pool Hloop; simpl in Hloop.
    + inversion Hloop; subst. lia.
    + destruct (Py.dict_get k pool); [| inversion Hloop; subst; lia].
      apply IH in Hloop. pose proof (dict_del_length k pool). lia.
  - apply auto_scale_bounded. exact Hle.
  - auto.
  - unfold pool_size in *. simpl. rewrite length_fmap. auto.
Qed.

(** C5: in every state the coordinator reaches from its construction with a
    non-negative [settings.max_agents], the pool holds at most [max_agents]
    agents. The dispatch path changes the pool only below [max_agents], by
    at most one agent; a scaling sweep changes it only when the queue is
    longer than the threshold and the pool is below [max_agents], and then
    its constructor calls, given fresh ids, add
    [min(queue_length - scaling_threshold, max_agents - pool_size)] agents. *)
Theorem pool_never_exceeds_max_agents (settings_max_agents : Z) (w : world) :
  0 <= settings_max_agents →
  reachable settings_max_agents w →
  pool_size (coordinator w) <= max_agents (coordinator w)
  ∧ max_agents (coordinator w) = settings_max_agents
  ∧ (∀ task uuid now self' out,
       _get_suitable_agent (coordinator w) task uuid now = (self', out) →
       agents self' ≠ agents (coordinator w) →
       pool_size (coordinator w) < max_agents (coordinator w)
       ∧ pool_size self' <= pool_size (coordinator w) + 1)
  ∧ (∀ uuid4 now,
       let queue_length := Z.of_nat (length (task_queue (coordinator w))) in
       (¬ (scaling_threshold (coordinator w) < queue_length
           ∧ pool_size (coordinator w) < max_agents (coordinator w)) →
        _auto_scale uuid4 now (coordinator w) = coordinator w)
       ∧ (scaling_threshold (coordinator w) < queue_length →
          pool_size (coordinator w) < max_agents (coordinator w) →
          Inj (=) (=) uuid4 →
          (∀ i, uuid4 i ∉ (agents (coordinator w)).*1) →
          pool_size (_auto_scale uuid4 now (coordinator w))
          = pool_size (coordinator w)
            + Z.min (queue_length - scaling_threshold (coordinator w))
                    (max_agents (coordinator w) - pool_size (coordinator w)))).
Proof.
  intros Hmax Hreach.
  assert (Hinv : pool_size (coordinator w) <= max_agents (coordinator w)
                 ∧ max_agents (coordinator w) = settings_max_agents).
  { unfold reachable in Hreach. revert w Hreach. apply rtc_ind_r.
    - simpl. split; [exact Hmax | reflexivity].
    - intros w1 w2 _ Hstep [Hle Heq].
      apply step_pool_bounded in Hstep as [? ?]; [| exact Hle].
      split; [assumption | congruence]. }
  destruct Hinv as [Hle Heq]. split; [exact Hle |]. split; [exact Heq |]. split.
  - intros task uuid now self' out Hget Hne.
    apply get_suitable_agent_pool in Hget as (_ & _ & [Hsame | Hgrow] & _);
      [contradiction | exact Hgrow].
  - intros uuid4 now queue_length. subst queue_length. split.
    + intros Hcond. unfold _auto_scale.
      destruct (_ && _) eqn:Hb; [| reflexivity].
      apply andb_prop in Hb as [H1 H2]. apply Z.ltb_lt in H1, H2. tauto.
    + intros Hq Hp Hinj Hfresh. unfold _auto_scale.
      rewrite (proj2 (Z.ltb_lt _ _) Hq), (proj2 (Z.ltb_lt _ _) Hp). simpl.
      unfold pool_size in *. simpl.
      rewrite create_agents_length_fresh by (auto). unfold num_to_create, pool_size. lia.
Qed.

Lemma pool_never_exceeds_max_agents_witness :
  pool_size (coordinator Examples.world_after_dispatch) = 1
  ∧ pool_size (coordinator Examples.world_after_dispatch)
    <= max_agents (coordinator Examples.world_after_dispatch).
Proof.
  split; [reflexivity |].
  apply (pool_never_exceeds_max_agents 1); [lia |].
  eapply rtc_l; [apply (step_submit (initial 1) 0%nat Examples.first_task) |].
  eapply rtc_l; [apply (step_dispatch _ "agent-1" 0) |].
  apply rtc_refl.
Defined.

(** ** Leveling *)

Section Remove.
Context {A : Type} `{EqDecision A}.
Implicit Types (x : A) (l : list A).

Lemma remove_elem x l : x ∈ l → ∃ l', Py.remove x l = Some l'.
Proof.
  induction l as [| y l IH]; intros Hin; [inversion Hin |].
  simpl. case_decide as Hy; [eauto |].
  apply elem_of_cons in Hin as [-> | Hin]; [contradiction |].
  destruct (IH Hin) as [l' ->]. simpl. eauto.
Qed.

Lemma remove_perm x l l' : Py.remove x l = Some l' → l ≡ₚ x :: l'.
Proof.
  revert l'. induction l as [| y l IH]; intros l'; simpl; [discriminate |].
  case_decide as Hy.
  - intros [= <-]. subst. reflexivity.
  - destruct (Py.remove x l) as [l0 |]; simpl; [| discriminate].
    intros [= <-]. rewrite (IH l0 eq_refl). apply Permutation_swap.
Qed.

Lemma remove_keeps x y l l' : Py.remove x l = Some l' → y ∈ l → y ≠ x → y ∈ l'.
Proof.
  intros Hrm Hin Hne. apply remove_perm in Hrm. rewrite Hrm in Hin.
  apply elem_of_cons in Hin as [-> | Hin]; [contradiction | exact Hin].
Qed.
End Remove.

Lemma unblocked_false task remaining :
  unblocked task remaining = false ↔ stuck remaining task.
Proof.
  unfold unblocked, stuck. induction (Task.dependencies task) as [| d ds IH]; simpl.
  - split; [discriminate | intros (dep & Hdep & _); inversion Hdep].
  - rewrite andb_false_iff, IH, negb_false_iff, bool_decide_eq_true. split.
    + intros [Hd | (dep & Hdep & Hin)].
      * exists d. split; [left | exact Hd].
      * exists dep. split; [right; exact Hdep | exact Hin].
    + intros (dep & Hdep & Hin). apply elem_of_cons in Hdep as [-> | Hdep]; eauto.
Qed.

(** One run of the [for] loop never raises: it splits [remaining] into the
    level it extracts and the rest, and when it extracts nothing every task
    it visited is stuck. *)
Lemma level_pass_spec snapshot :
  ∀ remaining current_level,
    snapshot ⊆+ remaining →
    ∃ extracted remaining',
      level_pass snapshot remaining current_level
      = Some (current_level ++ extracted, remaining')
      ∧ extracted ++ remaining' ≡ₚ remaining
      ∧ (extracted = [] → remaining' = remaining ∧ Forall (stuck remaining) snapshot).
Proof.
  induction snapshot as [| task snapshot IH]; intros remaining current_level Hsub.
  - exists [], remaining. simpl. rewrite app_nil_r. auto.
  - simpl. destruct (unblocked task remaining) eqn:Hfree.
    + assert (Hin : task ∈ remaining).
      { eapply elem_of_submseteq; [| exact Hsub]. left. }
      destruct (remove_elem _ _ Hin) as [r1 Hrm]. rewrite Hrm.
      pose proof (remove_perm _ _ _ Hrm) as Hperm.
      assert (Hsub' : snapshot ⊆+ r1).
      { rewrite Hperm in Hsub. apply (submseteq_app_inv_l _ _ [task]). exact Hsub. }
      destruct (IH r1 (current_level ++ [task]) Hsub') as (ext & r2 & Hrun & Hp & _).
      exists (task :: ext), r2. rewrite Hrun, <- app_assoc. simpl.
      split; [reflexivity |]. split; [| discriminate].
      rewrite Hperm, Hp. reflexivity.
    + assert (Hsub' : snapshot ⊆+ remaining).
      { etransitivity; [apply (submseteq_cons task); reflexivity | exact Hsub]. }
      destruct (IH remaining current_level Hsub') as (ext & r2 & Hrun & Hp & Hnone).
      exists ext, r2. split; [exact Hrun |]. split; [exact Hp |].
      intros Hext. destruct (Hnone Hext) as [-> Hall]. split; [reflexivity |].
      constructor; [apply unblocked_false; exact Hfree | exact Hall].
Qed.

Lemma stuck_mono G remaining task :
  G ⊆ remaining → stuck G task → stuck remaining task.
Proof.
  intros Hsub (dep & Hdep & Hin). exists dep. split; [exact Hdep |].
  apply list_elem_of_fmap in Hin as (t & -> & Ht). apply list_elem_of_fmap_2. auto.
Qed.

Lemma level_pass_keeps_blocking G snapshot :
  ∀ remaining current_level extracted remaining',
    Forall (stuck G) G → G ⊆ remaining →
    level_pass snapshot remaining current_level = Some (extracted, remaining') →
    G ⊆ remaining'.
Proof.
  induction snapshot as [| task snapshot IH];
    intros remaining current_level extracted remaining' HS Hsub Hrun; simpl in Hrun.
  - inversion Hrun; subst. exact Hsub.
  - destruct (unblocked task remaining) eqn:Hfree; [| eauto].
    destruct (Py.remove task remaining) as [r1 |] eqn:Hrm; [| discriminate].
    eapply IH; [exact HS | | exact Hrun].
    intros x Hx. eapply remove_keeps; [exact Hrm | apply Hsub; exact Hx |].
    intros ->. rewrite Forall_forall in HS.
    apply HS, (stuck_mono _ remaining), unblocked_false in Hx; [| exact Hsub].
    congruence.
Qed.

Lemma blocking_not_in_nil G : blocking G → G ⊆ [] → False.
Proof.
  intros [Hne _] Hsub. destruct G as [| x G]; [contradiction |].
  assert (H : x ∈ @nil Task.t) by (apply Hsub; left). inversion H.
Qed.

Lemma level_loop_S fuel remaining levels :
  remaining ≠ [] →
  level_loop (S fuel) remaining levels
  = match level_pass remaining remaining [] with
    | None => ValueError
    | Some ([], remaining) => Levels (levels ++ [remaining]) true
    | Some (current_level, remaining) =>
        level_loop fuel remaining (levels ++ [current_level])
    end.
Proof. destruct remaining; [contradiction | reflexivity]. Qed.

(** The [while] loop with enough fuel: it ends, the levels it adds are a
    partition of [remaining] into non-empty lists, and when it leaves through
    the catch-all branch the last level is a list of tasks that are all
    stuck in it. *)
Lemma level_loop_spec fuel :
  ∀ remaining levels,
    (length remaining ≤ fuel)%nat →
    ∃ added catch_all,
      level_loop fuel remaining levels = Levels (levels ++ added) catch_all
      ∧ concat added ≡ₚ remaining
      ∧ Forall (λ level, level ≠ []) added
      ∧ (catch_all = true →
         ∃ init last, added = init ++ [last] ∧ Forall (stuck last) last)
      ∧ (∀ G, blocking G → G ⊆ remaining →
         catch_all = true ∧ ∃ init last, added = init ++ [last] ∧ G ⊆ last).
Proof.
  induction fuel as [| fuel IH]; intros remaining levels Hfuel.
  - destruct remaining; [| simpl in Hfuel; lia].
    exists [], false. simpl. rewrite app_nil_r.
    split; [reflexivity |]. split; [reflexivity |]. split; [constructor |].
    split; [discriminate |].
    intros G HG Hsub. destruct (blocking_not_in_nil G HG Hsub).
  - destruct remaining as [| t0 rest] eqn:Hrem.
    + exists [], false. simpl. rewrite app_nil_r.
      split; [reflexivity |]. split; [reflexivity |]. split; [constructor |].
      split; [discriminate |].
      intros G HG Hsub. destruct (blocking_not_in_nil G HG Hsub).
    + rewrite <- Hrem in *. assert (Hne : remaining ≠ []) by (subst; discriminate).
      destruct (level_pass_spec remaining remaining [] (reflexivity _))
        as (ext & r1 & Hrun & Hperm & Hnone).
      simpl in Hrun.
      rewrite level_loop_S, Hrun by exact Hne. destruct ext as [| e ext].
      * destruct (Hnone eq_refl) as [-> Hall].
        exists [remaining], true. simpl. rewrite app_nil_r.
        split; [reflexivity |]. split; [reflexivity |].
        split; [constructor; auto |]. split.
        -- intros _. exists [], remaining. auto.
        -- intros G _ Hsub. split; [reflexivity |]. exists [], remaining. auto.
      * assert (Hlen : (length r1 ≤ fuel)%nat).
        { apply Permutation_length in Hperm. rewrite length_app in Hperm.
          simpl in Hperm. lia. }
        destruct (IH r1 (levels ++ [e :: ext]) Hlen)
          as (added & b & Hrec & Hcat & Hnon & Hlast & Hblock).
        exists ((e :: ext) :: added), b. rewrite Hrec, <- app_assoc. simpl.
        split; [reflexivity |]. split; [rewrite Hcat; exact Hperm |].
        split; [constructor; [discriminate | exact Hnon] |]. split.
        -- intros Hb. destruct (Hlast Hb) as (init & last & -> & Hall).
           exists ((e :: ext) :: init), last. auto.
        -- intros G HS Hsub.
           assert (Hsub' : G ⊆ r1).
           { eapply level_pass_keeps_blocking; [apply HS | exact Hsub | exact Hrun]. }
           destruct (Hblock G HS Hsub') as (Hb & init & last & -> & Hin).
           split; [exact Hb |]. exists ((e :: ext) :: init), last. auto.
Qed.

Lemma level_loop_nil fuel levels : level_loop fuel [] levels = Levels levels false.
Proof. destruct fuel; reflexivity. Qed.

(** More fuel than the length of [remaining] changes nothing. *)
Lemma level_loop_fuel f1 :
  ∀ f2 remaining levels,
    (length remaining ≤ f1)%nat → (length remaining ≤ f2)%nat →
    level_loop f1 remaining levels = level_loop f2 remaining levels.
Proof.
  induction f1 as [| f1 IH]; intros f2 remaining levels H1 H2.
  - destruct remaining; [| simpl in H1; lia]. rewrite !level_loop_nil. reflexivity.
  - destruct (decide (remaining = [])) as [-> | Hne];
      [rewrite !level_loop_nil; reflexivity |].
    destruct f2 as [| f2]; [destruct remaining; [contradiction | simpl in H2; lia] |].
    rewrite !level_loop_S by exact Hne.
    destruct (level_pass_spec remaining remaining [] (reflexivity _))
      as (ext & r1 & Hrun & Hperm & _).
    simpl in Hrun. rewrite Hrun. destruct ext as [| e ext]; [reflexivity |].
    apply Permutation_length in Hperm. rewrite length_app in Hperm. simpl in Hperm.
    apply IH; lia.
Qed.

Lemma length_concat_nonempty {A : Type} (ls : list (list A)) :
  Forall (λ l, l ≠ []) ls → (length ls ≤ length (concat ls))%nat.
Proof.
  induction 1 as [| l ls Hl _ IH]; simpl; [lia |].
  rewrite length_app. destruct l; [contradiction | simpl; lia].
Qed.

(** C7, as the code has it: leveling ends on every input, cyclic or not,
    after at most [len(tasks)] iterations of the loop, one per phase; the
    phases hold every task once; when an iteration extracts nothing the loop
    ends with the remaining tasks, each one waiting for a task among them,
    as the last phase; tasks that wait for each other in a cycle all end up
    in that last phase; and the plan is built from the phases alone. *)
Theorem leveling_ends_with_catch_all_phase (tasks : list Task.t) :
  ∃ levels catch_all,
    levels_of tasks = Levels levels catch_all
    ∧ (∀ fuel, (length tasks ≤ fuel)%nat →
               level_loop fuel tasks [] = Levels levels catch_all)
    ∧ (length levels ≤ length tasks)%nat
    ∧ concat levels ≡ₚ tasks
    ∧ (catch_all = true →
       ∃ init last, levels = init ++ [last] ∧ last ≠ [] ∧ Forall (stuck last) last)
    ∧ (∀ G, blocking G → G ⊆ tasks →
            catch_all = true ∧ ∃ init last, levels = init ++ [last] ∧ G ⊆ last)
    ∧ generate_execution_plan tasks
      = Some (mk_plan (Z.of_nat (length tasks)) (phases_of levels) [] []).
Proof.
  destruct (level_loop_spec (length tasks) tasks [] (reflexivity _))
    as (levels & b & Hrun & Hperm & Hnon & Hlast & Hblock).
  simpl in Hrun. exists levels, b.
  split; [exact Hrun |]. split.
  { intros fuel Hfuel. rewrite <- Hrun. apply level_loop_fuel; [exact Hfuel | lia]. }
  split.
  { rewrite <- (Permutation_length Hperm). apply length_concat_nonempty, Hnon. }
  split; [exact Hperm |]. split.
  { intros Hb. destruct (Hlast Hb) as (init & last & -> & Hall).
    exists init, last. split; [reflexivity |]. split; [| exact Hall].
    apply Forall_app in Hnon as [_ Hnon]. inversion Hnon; assumption. }
  split; [exact Hblock |].
  unfold generate_execution_plan. unfold levels_of. rewrite Hrun. reflexivity.
Qed.

(** ** Forward chains *)

Lemma unblocked_true task remaining :
  ¬ stuck remaining task → unblocked task remaining = true.
Proof.
  intros Hfree. destruct (unblocked task remaining) eqn:Hb; [reflexivity |].
  apply unblocked_false in Hb. contradiction.
Qed.

(** On a forward list with distinct ids the first run of the loop extracts
    every task: when a task is tested, the tasks it depends on have already
    left [remaining]. *)
Lemma level_pass_forward s :
  ∀ extracted current_level,
    forward (extracted ++ s) → NoDup (Task.id <$> extracted ++ s) →
    level_pass s s current_level = Some (current_level ++ s, []).
Proof.
  induction s as [| t s IH]; intros extracted current_level Hfwd Hnd.
  - simpl. rewrite app_nil_r. reflexivity.
  - simpl. rewrite unblocked_true.
    + rewrite decide_True by reflexivity.
      rewrite (IH (extracted ++ [t]) (current_level ++ [t])), <- ?app_assoc;
        [reflexivity | |]; rewrite <- app_assoc; assumption.
    + intros (dep & Hdep & Hin).
      destruct (Hfwd (length extracted) t dep) as (j & t' & Hj & Ht' & <-);
        [rewrite lookup_app_r, Nat.sub_diag by lia; reflexivity | exact Hdep |].
      rewrite lookup_app_l in Ht' by exact Hj.
      rewrite fmap_app in Hnd. apply NoDup_app in Hnd as (_ & Hdisj & _).
      apply (Hdisj (Task.id t')); [| exact Hin].
      apply list_elem_of_fmap_2, list_elem_of_lookup. eauto.
Qed.

Lemma forward_one_level l :
  forward l → NoDup (Task.id <$> l) →
  levels_of l = Levels (if decide (l = []) then [] else [l]) false.
Proof.
  intros Hfwd Hnd. unfold levels_of. destruct l as [| t l]; [reflexivity |].
  rewrite decide_False by discriminate.
  cbn [length]. rewrite level_loop_S by discriminate.
  rewrite (level_pass_forward (t :: l) [] []) by assumption.
  simpl. apply level_loop_nil.
Qed.

Lemma forward_acyclic l : forward l → NoDup (Task.id <$> l) → acyclic l.
Proof.
  intros Hfwd Hnd.
  assert (Hstep : ∀ t1 t2, tc (depends_on l) t1 t2 →
            ∀ i j, l !! i = Some t1 → l !! j = Some t2 → (j < i)%nat).
  { assert (Hone : ∀ t1 t2, depends_on l t1 t2 →
              ∀ i j, l !! i = Some t1 → l !! j = Some t2 → (j < i)%nat).
    { intros t1 t2 (_ & _ & Hdep) i j Hi Hj.
      destruct (Hfwd i t1 _ Hi Hdep) as (j' & t' & Hlt & Hj' & Hid).
      assert (j' = j); [| lia].
      apply (NoDup_lookup (Task.id <$> l) j' j (Task.id t2)); [exact Hnd | |];
        rewrite list_lookup_fmap.
      - rewrite Hj'. simpl. congruence.
      - rewrite Hj. reflexivity. }
    induction 1 as [t1 t2 H | t1 t2 t3 H _ IH]; intros i j Hi Hj; [eauto |].
    destruct H as (H1 & H2 & Hdep).
    apply list_elem_of_lookup in H2 as [m Hm].
    pose proof (Hone t1 t2 (conj H1 (conj (proj2 (list_elem_of_lookup _ _) (ex_intro _ m Hm)) Hdep)) i m Hi Hm).
    pose proof (IH m j Hm Hj). lia. }
  intros t Hcycle.
  assert (Hin : t ∈ l) by (inversion Hcycle as [? ? [H _] | ? ? ? [H _] _]; exact H).
  apply list_elem_of_lookup in Hin as [i Hi].
  pose proof (Hstep t t Hcycle i i Hi Hi). lia.
Qed.

Lemma forward_take k l : forward l → forward (take k l).
Proof.
  intros Hfwd i t dep Hi Hdep.
  assert (Hik : (i < k)%nat).
  { apply lookup_lt_Some in Hi. rewrite length_take in Hi. lia. }
  rewrite lookup_take_lt in Hi by exact Hik.
  destruct (Hfwd i t dep Hi Hdep) as (j & t' & Hj & Ht' & Hid).
  exists j, t'. rewrite lookup_take_lt by lia. auto.
Qed.

Lemma slice_to_take {A : Type} (n : Z) (l : list A) : ∃ k, Py.slice_to n l = take k l.
Proof. unfold Py.slice_to. destruct (0 <=? n); eauto. Qed.

(** ** Decomposition *)

Section Templates.
Variable uuid4 : nat → string.
Variable now : nat → Z.

(** The templates of [decompose_task], whatever the description selects. *)
Lemma template_cases (P : list Task.t → Prop) task :
  P (_decompose_research_task uuid4 now task) →
  P (_decompose_development_task uuid4 now task) →
  P (_decompose_scraping_task uuid4 now task) →
  P (_decompose_content_task uuid4 now task) →
  P (_decompose_generic_task uuid4 now task) →
  P (template uuid4 now task).
Proof. intros. unfold template. repeat case_match; assumption. Qed.

Lemma template_ids task :
  Task.id <$> template uuid4 now task
  = uuid4 <$> seq 0 (length (template uuid4 now task)).
Proof. apply template_cases; reflexivity. Qed.

Lemma template_forward task : forward (template uuid4 now task).
Proof.
  apply template_cases; intros i t dep Hi Hdep;
    (destruct i as [| [| [| [| i]]]]; simpl in Hi; [.. | try discriminate];
     inversion Hi; subst; simpl in Hdep;
     [inversion Hdep | ..];
     apply list_elem_of_singleton in Hdep; subst dep);
    [ exists 0%nat | exists 1%nat | exists 0%nat | exists 1%nat | exists 2%nat
    | exists 0%nat | exists 1%nat | exists 0%nat | exists 1%nat
    | exists 0%nat | exists 1%nat ];
    (eexists; split; [lia | split; reflexivity]).
Qed.

Lemma template_length task : (length (template uuid4 now task) ≤ 4)%nat.
Proof. apply template_cases; simpl; lia. Qed.
End Templates.

(** C10: for ids that [uuid4] never repeats, [decompose_task] returns a
    prefix of the selected template, of length at most [max_subtasks] when
    that bound is not negative; a negative bound counts from the end of the
    template, whose last [- max_subtasks] sub-tasks are dropped; every
    dependency in the result is the id of a task strictly earlier in it; so
    its dependency relation is acyclic and leveling it ends without the
    catch-all branch. *)
Theorem decompose_task_forward_chain
    (uuid4 : nat → string) (now : nat → Z) (task : Task.t) (max_subtasks : Z) :
  Inj (=) (=) uuid4 →
  (0 <= max_subtasks →
   Z.of_nat (length (decompose_task uuid4 now task max_subtasks)) <= max_subtasks)
  ∧ (max_subtasks < 0 →
     Z.of_nat (length (decompose_task uuid4 now task max_subtasks))
     = Z.max 0 (Z.of_nat (length (template uuid4 now task)) + max_subtasks))
  ∧ decompose_task uuid4 now task max_subtasks `prefix_of` template uuid4 now task
  ∧ forward (decompose_task uuid4 now task max_subtasks)
  ∧ acyclic (decompose_task uuid4 now task max_subtasks)
  ∧ ∃ levels, levels_of (decompose_task uuid4 now task max_subtasks) = Levels levels false.
Proof.
  intros Hinj. unfold decompose_task.
  destruct (slice_to_take max_subtasks (template uuid4 now task)) as [k Hk].
  assert (Hfwd : forward (Py.slice_to max_subtasks (template uuid4 now task))).
  { rewrite Hk. apply forward_take, template_forward. }
  assert (Hnd : NoDup (Task.id <$> Py.slice_to max_subtasks (template uuid4 now task))).
  { rewrite Hk, fmap_take, template_ids.
    eapply sublist_NoDup; [| apply sublist_take].
    apply NoDup_fmap_2; [exact Hinj | apply NoDup_seq]. }
  split; [| split; [| split; [| split; [| split]]]].
  - intros Hpos. unfold Py.slice_to. rewrite (proj2 (Z.leb_le _ _) Hpos).
    rewrite length_take. lia.
  - intros Hneg. unfold Py.slice_to. rewrite (proj2 (Z.leb_gt _ _) Hneg).
    rewrite length_take. lia.
  - rewrite Hk. apply prefix_take.
  - exact Hfwd.
  - apply forward_acyclic; assumption.
  - eexists. apply forward_one_level; assumption.
Qed.

Lemma decompose_task_forward_chain_witness :
  Z.of_nat (length (decompose_task Examples.counter_uuid4 (λ _, 0) Examples.dependent_task 2))
  <= 2.
Proof.
  apply (decompose_task_forward_chain Examples.counter_uuid4 (λ _, 0) Examples.dependent_task 2);
    [unfold Examples.counter_uuid4; apply _ | lia].
Defined.

(** C10 as stated fails for a negative bound: [subtasks[:-1]] drops the last
    sub-task only, so with [max_subtasks = -1] two sub-tasks are returned. *)
Lemma negative_bound_returns_two_subtasks :
  length (decompose_task Examples.counter_uuid4 (λ _, 0) Examples.first_task (-1)) = 2%nat
  ∧ ¬ (Z.of_nat (length (decompose_task Examples.counter_uuid4 (λ _, 0)
                                        Examples.first_task (-1))) <= -1).
Proof. split; [reflexivity | vm_compute; intros H; apply H; reflexivity]. Qed.

(** C6 fails on the code: in the list [first; second], where [second]
    depends on [first] and nothing else depends on anything, leveling puts
    both tasks in the same phase, which the plan marks as parallel. *)
Theorem dependent_task_in_phase_of_its_dependency :
  acyclic Examples.chain_pair
  ∧ Task.dependencies Examples.second = [Task.id Examples.first]
  ∧ levels_of Examples.chain_pair = Levels [[Examples.first; Examples.second]] false
  ∧ phase_index (Task.id Examples.first) [[Examples.first; Examples.second]] = Some 0%nat
  ∧ phase_index (Task.id Examples.second) [[Examples.first; Examples.second]] = Some 0%nat
  ∧ generate_execution_plan Examples.chain_pair
    = Some (mk_plan 2 [mk_phase 1 ["first"; "second"] true] [] []).
Proof.
  split; [| repeat split].
  apply forward_acyclic.
  - intros i t dep Hi Hdep.
    destruct i as [| [| i]]; simpl in Hi; try discriminate;
      inversion Hi; subst; simpl in Hdep; [inversion Hdep |].
    apply list_elem_of_singleton in Hdep. subst dep.
    exists 0%nat, Examples.first. split; [lia | split; reflexivity].
  - apply (bool_decide_unpack _). vm_compute. exact I.
Qed.

(** The scenario of a research task: its three stages, each depending on the
    one before, come out of leveling as a single phase. *)
Example research_chain_in_one_phase :
  ∃ search analysis summary,
    decompose_task Examples.counter_uuid4 (λ _, 0) Examples.first_task 10
    = [search; analysis; summary]
    ∧ Task.dependencies analysis = [Task.id search]
    ∧ Task.dependencies summary = [Task.id analysis]
    ∧ levels_of [search; analysis; summary]
      = Levels [[search; analysis; summary]] false.
Proof. do 3 eexists. repeat split. Qed.

(** C7 as stated fails: the plan of two tasks that wait for each other is
    the plan of the same two tasks without dependencies; leveling took the
    catch-all branch for the first and not for the second, and nothing in
    the plan tells. *)
Lemma cyclic_plan_has_no_flag :
  levels_of Examples.cyclic_pair = Levels [Examples.cyclic_pair] true
  ∧ levels_of Examples.independent_pair = Levels [Examples.independent_pair] false
  ∧ generate_execution_plan Examples.cyclic_pair
    = generate_execution_plan Examples.independent_pair.
Proof. repeat split. Qed.

(** ** Priorities *)

Lemma priority_value_inj p q : priority_value p = priority_value q → p = q.
Proof. destruct p, q; simpl; intros H; congruence || lia. Qed.

Lemma key_le_goes_before a b : key_le (sort_key a) (sort_key b) ↔ goes_before a b.
Proof.
  unfold key_le, sort_key, goes_before. simpl. split.
  - intros [H | [H1 H2]]; [left; lia | right].
    split; [apply priority_value_inj; lia | lia].
  - intros [H | [H1 H2]]; [left; lia | right]. rewrite H1. split; [reflexivity | lia].
Qed.

Lemma key_le_total a b : ¬ key_le a b → key_le b a.
Proof. unfold key_le. lia. Qed.

Lemma key_le_trans a b c : key_le a b → key_le b c → key_le a c.
Proof. unfold key_le. lia. Qed.

Section Sorted.
Context {A : Type} (key : A → Z * Z).

Lemma insert_sorted_perm x l : insert_sorted key x l ≡ₚ x :: l.
Proof.
  induction l as [| y l IH]; simpl; [reflexivity |].
  case_decide; [reflexivity |]. rewrite IH. apply Permutation_swap.
Qed.

Lemma sorted_perm l : sorted key l ≡ₚ l.
Proof.
  induction l as [| x l IH]; simpl; [reflexivity |].
  rewrite insert_sorted_perm, IH. reflexivity.
Qed.

Lemma insert_sorted_sorted x l :
  StronglySorted (λ a b, key_le (key a) (key b)) l →
  StronglySorted (λ a b, key_le (key a) (key b)) (insert_sorted key x l).
Proof.
  induction 1 as [| y l Hs IH Hy]; simpl; [repeat constructor |].
  case_decide as Hxy.
  - constructor; [constructor; assumption |]. constructor; [exact Hxy |].
    eapply Forall_impl; [exact Hy |]. intros z Hz. eapply key_le_trans; eassumption.
  - constructor; [exact IH |].
    rewrite insert_sorted_perm. constructor; [apply key_le_total, Hxy | exact Hy].
Qed.

Lemma sorted_sorted l : StronglySorted (λ a b, key_le (key a) (key b)) (sorted key l).
Proof.
  induction l as [| x l IH]; simpl; [constructor | apply insert_sorted_sorted, IH].
Qed.
End Sorted.

Lemma StronglySorted_weaken {A : Type} (R1 R2 : relation A) (l : list A) :
  (∀ a b, R1 a b → R2 a b) → StronglySorted R1 l → StronglySorted R2 l.
Proof.
  intros HR. induction 1 as [| x l _ IH Hx]; constructor; [exact IH |].
  eapply Forall_impl; [exact Hx | apply HR].
Qed.

Lemma assign_loop_spec n workflow :
  ∀ i tasks,
    NoDup workflow →
    (∀ l, l ∉ workflow → assign_loop n i workflow tasks !! l = tasks !! l)
    ∧ (∀ k l x, workflow !! k = Some l → tasks !! l = Some x →
         assign_loop n i workflow tasks !! l = Some (reprioritized n (i + Z.of_nat k) x)).
Proof.
  induction workflow as [| l0 workflow IH]; intros i tasks Hnd.
  - split; [reflexivity |]. intros k l x Hk. destruct k; discriminate.
  - apply NoDup_cons in Hnd as [Hfresh Hnd]. cbn [assign_loop].
    set (tasks1 := if decide (Task.priority (tasks !!! l0) = MEDIUM) then _ else _).
    assert (Hother : ∀ l, l ≠ l0 → tasks1 !! l = tasks !! l).
    { intros l Hl. subst tasks1. repeat case_match; rewrite ?lookup_alter_ne; auto. }
    assert (Hhead : ∀ x, tasks !! l0 = Some x → tasks1 !! l0 = Some (reprioritized n i x)).
    { intros x Hx. subst tasks1. unfold reprioritized.
      rewrite (lookup_total_Some _ _ _ Hx).
      repeat case_match; rewrite ?lookup_alter_eq, ?Hx; reflexivity. }
    destruct (IH (i + 1) tasks1 Hnd) as [IHout IHin]. split.
    + intros l Hl. apply not_elem_of_cons in Hl as [Hl0 Hl].
      rewrite IHout by exact Hl. apply Hother. exact Hl0.
    + intros k l x Hk Hx. destruct k as [| k]; simpl in Hk.
      * inversion Hk; subst l. rewrite IHout by exact Hfresh.
        rewrite Z.add_0_r. apply Hhead, Hx.
      * assert (Hl : l ≠ l0).
        { intros ->. apply Hfresh, list_elem_of_lookup. eauto. }
        rewrite (IHin k l x Hk) by (rewrite Hother; auto).
        f_equal. f_equal. lia.
Qed.

(** C8, as the code has it: in a workflow of [n] distinct task objects,
    [assign_priorities] changes nothing but the priority of tasks whose
    priority is MEDIUM: at a position below [n // 3] it becomes HIGH, at a
    position above [2 * n // 3] it becomes LOW, and in between it stays
    MEDIUM; a task with another priority keeps it; tasks outside the
    workflow are untouched; and the result lists the same tasks by
    decreasing priority, then by increasing number of dependencies. *)
Theorem assign_priorities_by_position
    (workflow : list loc) (tasks : store)
    (prioritized : list loc) (tasks' : store) :
  NoDup workflow →
  assign_priorities workflow tasks = (prioritized, tasks') →
  let n := Z.of_nat (length workflow) in
  (∀ i l x, workflow !! i = Some l → tasks !! l = Some x →
     (Task.priority x ≠ MEDIUM → tasks' !! l = Some x)
     ∧ (Task.priority x = MEDIUM → Z.of_nat i < n / 3 →
        tasks' !! l = Some (Task.set_priority HIGH x))
     ∧ (Task.priority x = MEDIUM → n / 3 <= Z.of_nat i → 2 * n / 3 < Z.of_nat i →
        tasks' !! l = Some (Task.set_priority LOW x))
     ∧ (Task.priority x = MEDIUM → n / 3 <= Z.of_nat i <= 2 * n / 3 →
        tasks' !! l = Some x))
  ∧ (∀ l, l ∉ workflow → tasks' !! l = tasks !! l)
  ∧ prioritized ≡ₚ workflow
  ∧ StronglySorted (λ l1 l2, goes_before (tasks' !!! l1) (tasks' !!! l2)) prioritized.
Proof.
  intros Hnd Hrun n. unfold assign_priorities in Hrun. inversion Hrun; subst; clear Hrun.
  destruct (assign_loop_spec n workflow 0 tasks Hnd) as [Hout Hin].
  split; [| split; [exact Hout | split; [apply sorted_perm |]]].
  - intros i l x Hi Hx. specialize (Hin i l x Hi Hx). simpl in Hin.
    fold n. rewrite Hin. unfold reprioritized.
    repeat split; intros; repeat case_match; try reflexivity; try contradiction; lia.
  - eapply StronglySorted_weaken; [| apply sorted_sorted].
    intros l1 l2 H. apply key_le_goes_before. exact H.
Qed.

Lemma assign_priorities_by_position_witness :
  (assign_priorities [0%nat; 1%nat; 2%nat] Examples.three_medium).2 !! 0%nat
  = Some (Task.set_priority HIGH (Task.new "a" 0 "first" MEDIUM [] ∅)).
Proof.
  assert (Hnd : NoDup [0%nat; 1%nat; 2%nat]).
  { apply (bool_decide_unpack _). vm_compute. exact I. }
  pose proof (assign_priorities_by_position
                [0%nat; 1%nat; 2%nat] Examples.three_medium _ _ Hnd eq_refl) as [H _].
  apply (H 0%nat 0%nat (Task.new "a" 0 "first" MEDIUM [] ∅) eq_refl eq_refl);
    [reflexivity | vm_compute; reflexivity].
Defined.

(** C8 as stated fails: in a workflow of three tasks with the default
    priority, the task at the last position, which is the last third, keeps
    MEDIUM. *)
Lemma last_of_three_not_demoted :
  Task.priority <$> (assign_priorities [0%nat; 1%nat; 2%nat] Examples.three_medium).2 !! 0%nat
  = Some HIGH
  ∧ Task.priority <$> (assign_priorities [0%nat; 1%nat; 2%nat] Examples.three_medium).2 !! 2%nat
    = Some MEDIUM
  ∧ Task.priority <$> (assign_priorities [0%nat; 1%nat; 2%nat] Examples.three_medium).2 !! 2%nat
    ≠ Some LOW.
Proof. repeat split. discriminate. Qed.

(** * Further properties of the coordinator, the agents and the orchestrator *)

Import Pool.
Import Runs.
Import zai_integration.

(** ** Runs of an agent *)

Lemma step_metrics_consistent s s' :
  BaseAgent.step s s' →
  metrics_consistent (BaseAgent.performance_metrics s.1) →
  metrics_consistent (BaseAgent.performance_metrics s'.1).
Proof.
  intros Hstep Hm.
  destruct Hstep as [a tasks task | a tasks pt et | a tasks now | a tasks]; simpl in *;
    [unfold BaseAgent.assign_task; case_decide; exact Hm | | exact Hm | exact Hm].
  destruct Hm as (Hc & Hf & Hzero & Hpos).
  unfold BaseAgent.execute_task, BaseAgent.execute_task_failed.
  destruct (BaseAgent.current_task a) as [T |];
    [| unfold metrics_consistent; auto].
  destruct pt as [r | e]; [case_decide as Hz; [lia |] |];
    unfold metrics_consistent; simpl.
  - split; [lia |]. split; [exact Hf |]. split; [intros; lia | reflexivity].
  - split; [exact Hc |]. split; [lia | auto].
Qed.

(** X1: an agent that was constructed and then used through its methods,
    in any order, has consistent counters; so [execute_task] on it never
    fails by a division by zero: with a current task its outcome is the
    outcome of the task body. *)
Theorem constructed_agent_never_fails_by_itself
    (agent_id name : string) (capabilities : list string) (now : Z)
    (tasks0 : store) (a : BaseAgent.t) (tasks : store) :
  rtc BaseAgent.step (BaseAgent.init agent_id name capabilities now, tasks0) (a, tasks) →
  metrics_consistent (BaseAgent.performance_metrics a)
  ∧ (∀ process_task execution_time,
       is_Some (BaseAgent.current_task a) →
       (BaseAgent.execute_task process_task execution_time a tasks).2 = process_task).
Proof.
  intros Hrun.
  assert (Hm : metrics_consistent (BaseAgent.performance_metrics a)).
  { change a with (a, tasks).1. revert Hrun. generalize (a, tasks).
    apply rtc_ind_r.
    - simpl. unfold metrics_consistent. simpl. repeat split; auto; lia.
    - intros s s' _ Hstep IH. eapply step_metrics_consistent; eauto. }
  split; [exact Hm |].
  intros pt et [T HT]. unfold BaseAgent.execute_task, BaseAgent.execute_task_failed.
  rewrite HT. destruct pt as [r | e]; [| reflexivity].
  destruct Hm as (Hc & _). case_decide; [lia | reflexivity].
Qed.

(** X2: the methods of an agent never change its id, name or capabilities,
    and none of them sets the status back to idle: once an agent is not
    idle it stays so, and [assign_task] refuses every task without changing
    anything. *)
Theorem agent_leaves_idle_for_good
    (a0 : BaseAgent.t) (tasks0 : store) (a : BaseAgent.t) (tasks : store) :
  rtc BaseAgent.step (a0, tasks0) (a, tasks) →
  BaseAgent.id a = BaseAgent.id a0
  ∧ BaseAgent.name a = BaseAgent.name a0
  ∧ BaseAgent.capabilities a = BaseAgent.capabilities a0
  ∧ (BaseAgent.status a0 ≠ IDLE →
     BaseAgent.status a ≠ IDLE
     ∧ ∀ task, BaseAgent.assign_task a task tasks = (a, tasks, false)).
Proof.
  intros Hrun.
  assert (H : BaseAgent.id a = BaseAgent.id a0
              ∧ BaseAgent.name a = BaseAgent.name a0
              ∧ BaseAgent.capabilities a = BaseAgent.capabilities a0
              ∧ (BaseAgent.status a0 ≠ IDLE → BaseAgent.status a ≠ IDLE)).
  { change a with (a, tasks).1. revert Hrun. generalize (a, tasks).
    apply rtc_ind_r; [simpl; auto |].
    intros s s' _ Hstep (Hid & Hname & Hcaps & Hst).
    destruct Hstep as [b ts task | b ts pt et | b ts now' | b ts]; simpl in *.
    - unfold BaseAgent.assign_task.
      case_decide as Hb; simpl; repeat split; auto; intros _; discriminate.
    - unfold BaseAgent.execute_task, BaseAgent.execute_task_failed.
      destruct (BaseAgent.current_task b); simpl; [| auto].
      destruct pt; [case_decide |]; simpl; repeat split; auto; intros _; discriminate.
    - auto.
    - repeat split; auto; intros _; discriminate. }
  destruct H as (Hid & Hname & Hcaps & Hst). repeat split; auto.
  intros task. unfold BaseAgent.assign_task.
  rewrite decide_True by auto. reflexivity.
Qed.

(** ** The pool as a dictionary *)

Lemma elem_of_dict_set {V : Type} k (v : V) d k' v' :
  (k', v') ∈ Py.dict_set k v d → (k', v') = (k, v) ∨ (k', v') ∈ d.
Proof.
  induction d as [| [k0 v0] d IH]; simpl.
  - intros Hin. apply list_elem_of_singleton in Hin. auto.
  - case_decide as Hk; rewrite !elem_of_cons; intros [Hin | Hin]; auto.
    destruct (IH Hin); auto.
Qed.

Lemma remove_agents_sublist ids :
  ∀ pool acc, (remove_agents ids pool acc).1 `sublist_of` pool.
Proof.
  induction ids as [| k ids IH]; intros pool acc; simpl; [reflexivity |].
  destruct (Py.dict_get k pool); [| reflexivity].
  etransitivity; [apply IH | apply dict_del_sublist].
Qed.

Lemma find_idle_none (self : SwarmCoordinator.t) (task : Task.t) :
  no_idle_agent_for self task →
  List.find (λ ka, bool_decide (BaseAgent.status ka.2 = IDLE)
                   && _agent_can_handle_task ka.2 task) (agents self) = None.
Proof.
  intros Hno. destruct (List.find _ _) as [[k a] |] eqn:Hfind; [| reflexivity].
  apply find_some in Hfind as [Hin Hp]. apply list_elem_of_In in Hin.
  apply andb_prop in Hp as [Hidle Hcan]. apply bool_decide_eq_true in Hidle.
  simpl in *. rewrite (Hno k a Hin Hidle) in Hcan. discriminate.
Qed.

Lemma assign_task_id a task tasks :
  BaseAgent.id (BaseAgent.assign_task a task tasks).1.1 = BaseAgent.id a.
Proof. unfold BaseAgent.assign_task. case_decide; reflexivity. Qed.

Lemma execute_task_id pt et a tasks :
  BaseAgent.id (BaseAgent.execute_task pt et a tasks).1.1 = BaseAgent.id a.
Proof.
  unfold BaseAgent.execute_task, BaseAgent.execute_task_failed.
  destruct (BaseAgent.current_task a); [| reflexivity].
  destruct pt; [case_decide |]; reflexivity.
Qed.

Lemma execute_agent_task_agent pt et agent task self tasks :
  (_execute_agent_task pt et agent task self tasks).1.1
  = (BaseAgent.execute_task pt et agent tasks).1.1
  ∧ agents (_execute_agent_task pt et agent task self tasks).1.2 = agents self.
Proof.
  unfold _execute_agent_task.
  destruct (BaseAgent.execute_task pt et agent tasks) as [[a1 t1] [r | e]]; auto.
Qed.

Lemma well_formed_set k a (self : SwarmCoordinator.t) :
  well_formed self → BaseAgent.id a = k →
  well_formed (set_agents (Py.dict_set k a (agents self)) self).
Proof.
  intros [Hnd Hid] Ha. split; simpl.
  - apply dict_set_NoDup, Hnd.
  - intros k' a' Hin. apply elem_of_dict_set in Hin as [[= -> ->] | Hin]; auto.
Qed.

Lemma get_suitable_agent_well_formed self task uuid now self' out :
  well_formed self →
  _get_suitable_agent self task uuid now = (self', out) →
  well_formed self'
  ∧ ∀ k a, out = Py.Returns (Some (k, a)) → BaseAgent.id a = k.
Proof.
  intros Hwf. unfold _get_suitable_agent.
  destruct (List.find _ (agents self)) as [[k0 a0] |] eqn:Hfind.
  - intros [= <- <-]. split; [exact Hwf |]. intros k a [= <- <-].
    apply find_some in Hfind as [Hin _]. apply list_elem_of_In in Hin.
    apply (proj2 Hwf). exact Hin.
  - destruct (pool_size self <? max_agents self).
    + destruct (AgentFactory.create_agent_for_task task uuid now) as [[a |] | e];
        intros [= <- <-]; (split; [| intros; congruence || discriminate]);
        try exact Hwf.
      apply well_formed_set; auto.
    + intros [= <- <-]. split; [exact Hwf | discriminate].
Qed.

Lemma step_well_formed w w' :
  step w w' → well_formed (coordinator w) → well_formed (coordinator w').
Proof.
  intros Hstep Hwf. destruct Hstep; simpl.
  - exact Hwf.
  - unfold _process_task_queue. destruct (task_queue (coordinator w)) as [| task queue];
      [exact Hwf |].
    destruct (_get_suitable_agent _ _ uuid now) as [self' out] eqn:Hget.
    apply get_suitable_agent_well_formed in Hget as [Hwf' Hid]; [| exact Hwf].
    destruct out as [[[k a] |] | e]; simpl; try exact Hwf'.
    pose proof (assign_task_id a task (tasks w)) as Ha.
    destruct (BaseAgent.assign_task a task (tasks w)) as [[a' tasks'] ok]. simpl in *.
    apply well_formed_set; [exact Hwf' |]. rewrite Ha. apply Hid. reflexivity.
  - unfold finish_execution. destruct (executing w !! i) as [[k task] |]; [| exact Hwf].
    destruct (Py.dict_get k (agents (coordinator w))) as [agent |] eqn:Hk; [| exact Hwf].
    pose proof (execute_agent_task_agent process_task execution_time agent task
                  (coordinator w) (tasks w)) as [Hag Hpool].
    destruct (_execute_agent_task _ _ agent task _ _) as [[agent' self'] tasks'].
    simpl in *. subst agent'.
    destruct Hwf as [Hnd Hid]. split; simpl.
    + rewrite Hpool. apply dict_set_NoDup, Hnd.
    + intros k' a' Hin. rewrite Hpool in Hin.
      apply elem_of_dict_set in Hin as [[= -> ->] | Hin]; [| auto].
      rewrite execute_task_id. apply Hid, dict_get_Some_elem, Hk.
  - unfold _monitor_agents.
    pose proof (remove_agents_sublist (agents_to_remove (coordinator w) current_time)
                  (agents (coordinator w)) []) as Hsub.
    destruct (remove_agents _ _ _) as [pool' removed]. simpl in *.
    destruct Hwf as [Hnd Hid]. split; simpl.
    + eapply sublist_NoDup; [exact Hnd | apply fmap_sublist, Hsub].
    + intros k a Hin. apply Hid. eapply sublist_submseteq, elem_of_submseteq in Hsub; eauto.
  - unfold _auto_scale. destruct (_ && _); [| exact Hwf]. simpl.
    destruct Hwf as [Hnd Hid].
    generalize (Z.to_nat (num_to_create (coordinator w))). intros n.
    assert (Hgen : ∀ i pool,
              NoDup pool.*1 → (∀ k a, (k, a) ∈ pool → BaseAgent.id a = k) →
              NoDup (create_agents n i uuid4 now pool).*1
              ∧ ∀ k a, (k, a) ∈ create_agents n i uuid4 now pool → BaseAgent.id a = k).
    { induction n as [| n IH]; intros i pool Hnd' Hid'; [auto |].
      rewrite create_agents_S. apply IH; [apply dict_set_NoDup, Hnd' |].
      intros k a Hin. apply elem_of_dict_set in Hin as [[= -> ->] | Hin]; auto. }
    destruct (Hgen 0%nat (agents (coordinator w)) Hnd Hid). split; assumption.
  - exact Hwf.
  - destruct Hwf as [Hnd Hid]. split; simpl.
    + rewrite <- list_fmap_compose. exact Hnd.
    + intros k a Hin. apply list_elem_of_fmap in Hin as ([k0 a0] & [= -> ->] & Hin).
      simpl. apply Hid. exact Hin.
Qed.

(** X4: in every state the coordinator reaches, the keys of the pool are
    distinct and every agent is filed under its own id. *)
Theorem reachable_pool_is_well_formed (settings_max_agents : Z) (w : world) :
  reachable settings_max_agents w → well_formed (coordinator w).
Proof.
  unfold reachable. revert w. apply rtc_ind_r.
  - split; simpl; [constructor | intros k a H; inversion H].
  - intros w1 w2 _ Hstep IH. eapply step_well_formed; eauto.
Qed.

(** ** Dispatch without an idle agent *)

Lemma filter_none {A : Type} (f : A → bool) (l : list A) :
  (∀ x, x ∈ l → f x = false) → List.filter f l = [].
Proof.
  induction l as [| x l IH]; intros H; simpl; [reflexivity |].
  rewrite (H x) by left. apply IH. intros y Hy. apply H. right. exact Hy.
Qed.

Lemma saturated_no_idle_agent_for self task :
  saturated self → no_idle_agent_for self task.
Proof. intros [_ Hbusy] k a Hin Hidle. destruct (Hbusy k a Hin Hidle). Qed.

Lemma get_suitable_agent_no_idle self task uuid now :
  no_idle_agent_for self task →
  _get_suitable_agent self task uuid now
  = if pool_size self <? max_agents self then
      match AgentFactory.create_agent_for_task task uuid now with
      | Py.Returns (AgentFactory.Agent agent) =>
          (set_agents (Py.dict_set (BaseAgent.id agent) agent (agents self)) self,
           Py.Returns (Some (BaseAgent.id agent, agent)))
      | Py.Returns AgentFactory.Coroutine =>
          (self, Py.Raises "'coroutine' object has no attribute 'id'")
      | Py.Raises e => (self, Py.Raises e)
      end
    else (self, Py.Returns None).
Proof.
  intros Hno. unfold _get_suitable_agent. rewrite find_idle_none by exact Hno.
  reflexivity.
Qed.

(** X5: when no idle agent of the pool can handle the task at the head of
    the queue and the pool is full, a dispatch iteration moves the task to
    the tail of the queue and changes nothing else. *)
Theorem dispatch_requeues_when_pool_is_full
    (uuid : string) (now : Z) (w : world) (T : loc) (queue : list loc) (x : Task.t) :
  task_queue (coordinator w) = T :: queue →
  tasks w !! T = Some x →
  no_idle_agent_for (coordinator w) x →
  max_agents (coordinator w) <= pool_size (coordinator w) →
  _process_task_queue uuid now w
  = mk_world (set_task_queue (queue ++ [T]) (coordinator w)) (tasks w) (executing w).
Proof.
  intros Hq Hx Hno Hfull. unfold _process_task_queue.
  rewrite Hq, (lookup_total_Some _ _ _ Hx), get_suitable_agent_no_idle by exact Hno.
  change (pool_size (set_task_queue queue (coordinator w))) with (pool_size (coordinator w)).
  change (max_agents (set_task_queue queue (coordinator w))) with (max_agents (coordinator w)).
  rewrite (proj2 (Z.ltb_ge _ _) Hfull). reflexivity.
Qed.

(** X6: when no idle agent can handle the task at the head of the queue,
    the pool has room, and the description of the task matches no keyword of
    the factory (or the keywords of the orchestrator class, whose constructor
    raises), a dispatch iteration takes the task off the queue and does
    nothing else: the task is neither run nor requeued, and stays in
    [active_tasks] as it was. *)
Theorem dispatch_drops_task_the_factory_cannot_serve
    (uuid : string) (now : Z) (w : world) (T : loc) (queue : list loc) (x : Task.t) :
  task_queue (coordinator w) = T :: queue →
  tasks w !! T = Some x →
  no_idle_agent_for (coordinator w) x →
  pool_size (coordinator w) < max_agents (coordinator w) →
  AgentFactory.agent_type_for (Py.lower (Task.description x)) = None
  ∨ AgentFactory.agent_type_for (Py.lower (Task.description x))
    = Some AgentFactory.orchestrator →
  _process_task_queue uuid now w
  = mk_world (set_task_queue queue (coordinator w)) (tasks w) (executing w).
Proof.
  intros Hq Hx Hno Hroom Hty. unfold _process_task_queue.
  rewrite Hq, (lookup_total_Some _ _ _ Hx), get_suitable_agent_no_idle by exact Hno.
  change (pool_size (set_task_queue queue (coordinator w))) with (pool_size (coordinator w)).
  change (max_agents (set_task_queue queue (coordinator w))) with (max_agents (coordinator w)).
  rewrite (proj2 (Z.ltb_lt _ _) Hroom).
  unfold AgentFactory.create_agent_for_task. destruct Hty as [-> | ->]; reflexivity.
Qed.

(** X7: when no idle agent can handle the task at the head of the queue,
    the pool has room and the factory has a class for the description that
    it can construct (any but the orchestrator and the analyzer), a dispatch
    iteration adds a new agent of that class at the end of the pool
    under the fresh id, assigns the task to it (the agent is busy with it,
    the task in progress and assigned to the id) and starts its execution;
    the capabilities of the new agent are not tested against the task. *)
Theorem dispatch_assigns_task_to_created_agent
    (uuid : string) (now : Z) (w : world) (T : loc) (queue : list loc) (x : Task.t)
    (k : AgentFactory.agent_type) :
  task_queue (coordinator w) = T :: queue →
  tasks w !! T = Some x →
  no_idle_agent_for (coordinator w) x →
  pool_size (coordinator w) < max_agents (coordinator w) →
  AgentFactory.agent_type_for (Py.lower (Task.description x)) = Some k →
  k ≠ AgentFactory.orchestrator →
  k ≠ AgentFactory.analyzer →
  uuid ∉ (agents (coordinator w)).*1 →
  let created :=
    BaseAgent.init uuid (AgentFactory.class_name k) (AgentFactory.class_capabilities k) now in
  _process_task_queue uuid now w
  = mk_world
      (set_agents
         (agents (coordinator w)
          ++ [(uuid, BaseAgent.set_status BUSY (BaseAgent.set_current_task (Some T) created))])
         (set_task_queue queue (coordinator w)))
      (<[T := Task.set_status "in_progress" (Task.set_assigned_to (Some uuid) x)]> (tasks w))
      (executing w ++ [(uuid, T)]).
Proof.
  intros Hq Hx Hno Hroom Hty Hk Hk' Hfresh created.
  unfold _process_task_queue.
  rewrite Hq, (lookup_total_Some _ _ _ Hx), get_suitable_agent_no_idle by exact Hno.
  change (pool_size (set_task_queue queue (coordinator w))) with (pool_size (coordinator w)).
  change (max_agents (set_task_queue queue (coordinator w))) with (max_agents (coordinator w)).
  rewrite (proj2 (Z.ltb_lt _ _) Hroom).
  unfold AgentFactory.create_agent_for_task. rewrite Hty.
  assert (Hc : AgentFactory.construct k uuid now = Py.Returns created)
    by (destruct k; try reflexivity; contradiction).
  rewrite Hc. simpl. f_equal.
  - unfold set_agents. simpl. f_equal.
    assert (Hset : ∀ (a b : BaseAgent.t) d, uuid ∉ d.*1 →
              Py.dict_set uuid b (Py.dict_set uuid a d) = d ++ [(uuid, b)]).
    { intros a b d. induction d as [| [k0 v0] d IH]; simpl; intros Hd.
      - rewrite decide_True by reflexivity. reflexivity.
      - apply not_elem_of_cons in Hd as [Hne Hd].
        rewrite decide_False by congruence. simpl.
        rewrite decide_False by congruence. rewrite IH by exact Hd. reflexivity. }
    apply Hset. exact Hfresh.
  - apply map_eq. intros l. destruct (decide (l = T)) as [-> | Hl].
    + rewrite !lookup_alter_eq, lookup_insert_eq, Hx. reflexivity.
    + rewrite !lookup_alter_ne, lookup_insert_ne by congruence. reflexivity.
Qed.

(** ** A pool without idle agents *)

Lemma agents_to_remove_none self current_time :
  (∀ k a, (k, a) ∈ agents self → idle_timed_out self current_time a = false) →
  agents_to_remove self current_time = [].
Proof.
  intros H. unfold agents_to_remove. rewrite filter_none; [reflexivity |].
  intros [k a] Hin. apply (H k a Hin).
Qed.

Lemma monitor_nothing_to_remove self current_time :
  (∀ k a, (k, a) ∈ agents self → idle_timed_out self current_time a = false) →
  _monitor_agents current_time self = (self, []).
Proof.
  intros H. unfold _monitor_agents. rewrite agents_to_remove_none by exact H.
  simpl. destruct self; reflexivity.
Qed.

Lemma not_idle_not_timed_out self current_time a :
  BaseAgent.status a ≠ IDLE → idle_timed_out self current_time a = false.
Proof.
  intros Hne. unfold idle_timed_out. rewrite bool_decide_eq_false_2 by exact Hne.
  reflexivity.
Qed.

Lemma execute_task_not_idle pt et a tasks :
  BaseAgent.status a ≠ IDLE →
  BaseAgent.status (BaseAgent.execute_task pt et a tasks).1.1 ≠ IDLE.
Proof.
  intros Hne. unfold BaseAgent.execute_task, BaseAgent.execute_task_failed.
  destruct (BaseAgent.current_task a); [| exact Hne].
  destruct pt; [case_decide |]; simpl; discriminate.
Qed.

Lemma execute_agent_task_max pt et agent task self tasks :
  max_agents (_execute_agent_task pt et agent task self tasks).1.2 = max_agents self.
Proof.
  unfold _execute_agent_task.
  destruct (BaseAgent.execute_task pt et agent tasks) as [[a1 t1] [r | e]]; reflexivity.
Qed.

Lemma step_saturated w w' :
  step w w' → saturated (coordinator w) →
  saturated (coordinator w')
  ∧ executing w' `sublist_of` executing w
  ∧ (agents (coordinator w')).*1 = (agents (coordinator w)).*1.
Proof.
  intros Hstep Hsat. destruct Hstep; simpl.
  - auto.
  - destruct (task_queue (coordinator w)) as [| T queue] eqn:Hq.
    + unfold _process_task_queue. rewrite Hq. auto.
    + unfold _process_task_queue. rewrite Hq.
      rewrite get_suitable_agent_no_idle
        by (apply (saturated_no_idle_agent_for (coordinator w)), Hsat).
      change (pool_size (set_task_queue queue (coordinator w)))
        with (pool_size (coordinator w)).
      change (max_agents (set_task_queue queue (coordinator w)))
        with (max_agents (coordinator w)).
      rewrite (proj2 (Z.ltb_ge _ _) (proj1 Hsat)). simpl. auto.
  - unfold finish_execution. destruct (executing w !! i) as [[k task] |]; [| auto].
    destruct (Py.dict_get k (agents (coordinator w))) as [agent |] eqn:Hk; [| auto].
    pose proof (execute_agent_task_agent process_task execution_time agent task
                  (coordinator w) (tasks w)) as [Hag Hpool].
    pose proof (execute_agent_task_max process_task execution_time agent task
                  (coordinator w) (tasks w)) as Hmax.
    destruct (_execute_agent_task _ _ agent task _ _) as [[agent' self'] tasks'].
    simpl in *. subst agent'. apply dict_get_Some_elem in Hk.
    assert (Hkey : k ∈ (agents (coordinator w)).*1)
      by (apply (list_elem_of_fmap_2' fst _ (k, agent)); auto).
    destruct Hsat as [Hfull Hbusy]. split; [split |]; simpl.
    + unfold pool_size in *. simpl. rewrite Hpool, dict_set_length_mem, Hmax by exact Hkey.
      exact Hfull.
    + intros k' a' Hin. rewrite Hpool in Hin.
      apply elem_of_dict_set in Hin as [[= -> ->] | Hin]; [| eauto].
      apply execute_task_not_idle. eauto.
    + split; [apply sublist_delete |].
      rewrite Hpool, dict_set_keys, decide_True by exact Hkey. reflexivity.
  - rewrite monitor_nothing_to_remove; [auto |].
    intros k a Hin. apply not_idle_not_timed_out. apply (proj2 Hsat k a Hin).
  - unfold _auto_scale.
    rewrite (proj2 (Z.ltb_ge _ _) (proj1 Hsat)), andb_false_r. auto.
  - auto.
  - destruct Hsat as [Hfull Hbusy]. split; [split |]; simpl.
    + unfold pool_size in *. simpl. rewrite length_fmap. exact Hfull.
    + intros k a Hin. apply list_elem_of_fmap in Hin as ([k0 a0] & [= -> ->] & Hin).
      discriminate.
    + split; [reflexivity |]. rewrite <- list_fmap_compose. reflexivity.
Qed.

(** X8: once the pool is full and none of its agents is idle, it stays so
    whatever happens next: the keys of the pool do not change, no agent
    becomes idle, and no execution is started any more. *)
Theorem saturated_pool_stays_saturated (w w' : world) :
  saturated (coordinator w) →
  rtc step w w' →
  saturated (coordinator w')
  ∧ executing w' `sublist_of` executing w
  ∧ (agents (coordinator w')).*1 = (agents (coordinator w)).*1.
Proof.
  intros Hsat Hrun. revert w' Hrun. apply rtc_ind_r; [auto |].
  intros w1 w2 _ Hstep (Hsat1 & Hex & Hkeys).
  destruct (step_saturated w1 w2 Hstep Hsat1) as (Hsat2 & Hex2 & Hkeys2).
  split; [exact Hsat2 |]. split; [etransitivity; eassumption | congruence].
Qed.

(** X9: [stop] clears [is_running] and terminates every agent but removes
    none; afterwards a monitoring sweep removes nothing, at any time, and no
    agent of the pool can be handed a task. *)
Theorem stop_terminates_and_keeps_every_agent
    (self : SwarmCoordinator.t) (current_time : Z) :
  is_running (stop self) = false
  ∧ (agents (stop self)).*1 = (agents self).*1
  ∧ (∀ k a, (k, a) ∈ agents self → (k, BaseAgent.terminate a) ∈ agents (stop self))
  ∧ (∀ k a, (k, a) ∈ agents (stop self) → BaseAgent.status a = TERMINATED)
  ∧ _monitor_agents current_time (stop self) = (stop self, [])
  ∧ (∀ task, no_idle_agent_for (stop self) task).
Proof.
  assert (Hterm : ∀ k a, (k, a) ∈ agents (stop self) → BaseAgent.status a = TERMINATED).
  { intros k a Hin. simpl in Hin.
    apply list_elem_of_fmap in Hin as ([k0 a0] & [= -> ->] & Hin). reflexivity. }
  split; [reflexivity |]. split; [simpl; rewrite <- list_fmap_compose; reflexivity |].
  split.
  { intros k a Hin. simpl.
    apply (list_elem_of_fmap_2' _ _ (k, a)); [exact Hin | reflexivity]. }
  split; [exact Hterm |]. split.
  - apply monitor_nothing_to_remove. intros k a Hin.
    apply not_idle_not_timed_out. rewrite (Hterm k a Hin). discriminate.
  - intros task k a Hin Hidle. rewrite (Hterm k a Hin) in Hidle. discriminate.
Qed.

(** X10: a second monitoring sweep at the same time removes nothing. *)
Theorem monitor_sweep_is_idempotent (self : SwarmCoordinator.t) (current_time : Z) :
  NoDup (agents self).*1 →
  _monitor_agents current_time (_monitor_agents current_time self).1
  = ((_monitor_agents current_time self).1, []).
Proof.
  intros Hnd. apply monitor_nothing_to_remove. intros k a Hin.
  unfold _monitor_agents in *.
  destruct (remove_agents _ _ _) as [pool' removed] eqn:Hloop. simpl in *.
  apply remove_agents_spec in Hloop as (Hpool & _ & _); [| exact Hnd | |].
  - apply Hpool in Hin as [Hin Hout].
    destruct (idle_timed_out _ current_time a) eqn:Hp; [| reflexivity].
    exfalso. apply Hout. apply elem_of_agents_to_remove. exists a. auto.
  - apply filter_keys_NoDup. exact Hnd.
  - intros k0 Hk. apply elem_of_agents_to_remove in Hk as (a0 & Hin0 & _).
    apply (list_elem_of_fmap_2' fst _ (k0, a0)); auto.
Qed.

(** ** Substrings *)

Lemma append_cons c (a b : string) : String c a +:+ b = String c (a +:+ b).
Proof. reflexivity. Qed.

Lemma append_nil (b : string) : "" +:+ b = b.
Proof. reflexivity. Qed.

Lemma prefix_true sub s : String.prefix sub s = true ↔ ∃ after, s = sub +:+ after.
Proof.
  revert s. induction sub as [| c sub IH]; intros s.
  - destruct s; simpl; split; eauto.
  - destruct s as [| c' s]; simpl.
    { split; [discriminate | intros [after H]; rewrite append_cons in H; discriminate]. }
    destruct (Ascii.ascii_dec c c') as [-> | Hne].
    + rewrite IH. split; intros [after H]; exists after; rewrite append_cons in *;
        congruence.
    + split; [discriminate |]. intros [after H]. rewrite append_cons in H.
      injection H as Hc _. symmetry in Hc. contradiction.
Qed.

Lemma contains_true sub s : Py.contains sub s = true ↔ substring sub s.
Proof.
  unfold substring. induction s as [| c s IH]; cbn [Py.contains].
  - rewrite orb_false_r, prefix_true. split.
    + intros [after H]. exists "", after. exact H.
    + intros ([| c before] & after & H);
        [eauto | rewrite append_cons in H; discriminate].
  - rewrite orb_true_iff, prefix_true, IH. split.
    + intros [[after H] | (before & after & H)].
      * exists "", after. exact H.
      * exists (String c before), after. rewrite append_cons. congruence.
    + intros ([| c' before] & after & H); [left; eauto |].
      right. rewrite append_cons in H. inversion H; subst. eauto.
Qed.

Lemma append_assoc (a b c : string) : (a +:+ b) +:+ c = a +:+ (b +:+ c).
Proof.
  induction a as [| x a IH]; [reflexivity |].
  rewrite !append_cons, IH. reflexivity.
Qed.

Lemma substring_trans a b s : substring a b → substring b s → substring a s.
Proof.
  intros (p1 & q1 & ->) (p2 & q2 & ->). exists (p2 +:+ p1), (q1 +:+ q2).
  rewrite !append_assoc. reflexivity.
Qed.

(** X11: an agent can handle a task exactly when one of its capabilities,
    in lower case, occurs as a contiguous substring of the description in
    lower case. *)
Theorem agent_can_handle_task_iff_capability_in_description
    (agent : BaseAgent.t) (task : Task.t) :
  _agent_can_handle_task agent task = true
  ↔ ∃ capability,
      capability ∈ BaseAgent.get_capabilities agent
      ∧ substring (Py.lower capability) (Py.lower (Task.description task)).
Proof.
  unfold _agent_can_handle_task. rewrite existsb_exists.
  split; intros (capability & Hin & H); exists capability;
    (split; [apply list_elem_of_In; exact Hin | apply contains_true; exact H]).
Qed.

(** ** The duration estimate *)

Lemma estimated_bounds desc : 30 <= estimated desc <= 180.
Proof.
  unfold estimated, duration_map. simpl.
  repeat (match goal with |- context [if ?b then _ else _] => destruct b end);
    simpl; lia.
Qed.

Lemma estimated_search desc : substring "search" desc → estimated desc = 30.
Proof.
  intros H. apply contains_true in H. unfold estimated, duration_map. simpl.
  rewrite H. reflexivity.
Qed.

Lemma estimated_seconds_foldl tasks :
  ∀ total,
    foldl (λ total_seconds task,
             total_seconds + estimated (Py.lower (Task.description task))) total tasks
    = total + estimated_seconds tasks.
Proof.
  unfold estimated_seconds.
  induction tasks as [| t tasks IH]; intros total; simpl; [lia |].
  rewrite IH, (IH (0 + _)). lia.
Qed.

Lemma estimated_seconds_cons t tasks :
  estimated_seconds (t :: tasks)
  = estimated (Py.lower (Task.description t)) + estimated_seconds tasks.
Proof. unfold estimated_seconds at 1. simpl. apply estimated_seconds_foldl. Qed.

(** X12: the estimate in seconds lies between 30 and 180 seconds per task,
    adds up over concatenated lists, and is 30 seconds for every task whose
    description mentions "search", which includes "research", whatever other
    keyword it mentions. *)
Theorem estimated_seconds_bounds_and_search (tasks other : list Task.t) :
  30 * Z.of_nat (length tasks) <= estimated_seconds tasks <= 180 * Z.of_nat (length tasks)
  ∧ estimated_seconds (tasks ++ other) = estimated_seconds tasks + estimated_seconds other
  ∧ (Forall (λ t, substring "search" (Py.lower (Task.description t))
                  ∨ substring "research" (Py.lower (Task.description t))) tasks →
     estimated_seconds tasks = 30 * Z.of_nat (length tasks)).
Proof.
  split; [| split].
  - induction tasks as [| t tasks IH]; [unfold estimated_seconds; simpl; lia |].
    rewrite estimated_seconds_cons.
    pose proof (estimated_bounds (Py.lower (Task.description t))).
    cbn [length]. lia.
  - induction tasks as [| t tasks IH]; [unfold estimated_seconds at 2; simpl; lia |].
    simpl. rewrite !estimated_seconds_cons, IH. lia.
  - induction 1 as [| t tasks Ht _ IH]; [reflexivity |].
    rewrite estimated_seconds_cons, IH, estimated_search; [cbn [length]; lia |].
    destruct Ht as [Ht | Ht]; [exact Ht |].
    eapply substring_trans; [| exact Ht]. exists "re", "". reflexivity.
Qed.

(** ** Progress *)

Lemma count_status_cons status t tasks :
  count_status status (t :: tasks)
  = (if bool_decide (Task.status t = status) then 1 else 0) + count_status status tasks.
Proof.
  unfold count_status. simpl. destruct (bool_decide _); simpl; lia.
Qed.

Lemma count_status_range status tasks :
  0 <= count_status status tasks <= Z.of_nat (length tasks).
Proof.
  induction tasks as [| t tasks IH]; [unfold count_status; simpl; lia |].
  rewrite count_status_cons. destruct (bool_decide _); cbn [length]; lia.
Qed.

Lemma rate_range (a b : Z) : 0 <= a <= b → 0 < b → (0 <= inject_Z a / inject_Z b <= 1)%Q.
Proof.
  intros Hab Hb.
  assert (Hq : (0 < inject_Z b)%Q).
  { change 0%Q with (inject_Z 0). rewrite <- Zlt_Qlt. exact Hb. }
  split.
  - apply Qle_shift_div_l; [exact Hq |]. rewrite Qmult_0_l.
    change 0%Q with (inject_Z 0). rewrite <- Zle_Qle. lia.
  - apply Qle_shift_div_r; [exact Hq |]. rewrite Qmult_1_l.
    rewrite <- Zle_Qle. lia.
Qed.

Lemma status_indicators (s : string) :
  let i := λ x : string, if bool_decide (s = x) then 1 else 0 in
  i "completed" + i "failed" + i "in_progress" + i "pending" <= 1
  ∧ (s ∈ ["completed"; "failed"; "in_progress"; "pending"] →
     i "completed" + i "failed" + i "in_progress" + i "pending" = 1).
Proof.
  simpl. repeat case_bool_decide; subst; try discriminate; (split; [lia |]);
    try (intros _; lia).
  intros Hin. repeat (apply elem_of_cons in Hin as [-> | Hin]; [contradiction |]).
  inversion Hin.
Qed.

(** X13: [monitor_progress] counts all tasks; its four status counts add
    up to at most that number, and to exactly that number when every status
    is one of the four; both rates lie between 0 and 1, and the success rate
    is 0, not a division by zero, when no task is completed or failed. *)
Theorem monitor_progress_counts (tasks : list Task.t) :
  progress_total_tasks (monitor_progress tasks) = Z.of_nat (length tasks)
  ∧ progress_completed (monitor_progress tasks) + progress_failed (monitor_progress tasks)
    + progress_in_progress (monitor_progress tasks) + progress_pending (monitor_progress tasks)
    <= Z.of_nat (length tasks)
  ∧ (Forall (λ t, Task.status t ∈ ["completed"; "failed"; "in_progress"; "pending"]) tasks →
     progress_completed (monitor_progress tasks) + progress_failed (monitor_progress tasks)
     + progress_in_progress (monitor_progress tasks) + progress_pending (monitor_progress tasks)
     = Z.of_nat (length tasks))
  ∧ (0 <= completion_rate (monitor_progress tasks) <= 1)%Q
  ∧ (0 <= success_rate (monitor_progress tasks) <= 1)%Q
  ∧ (progress_completed (monitor_progress tasks) + progress_failed (monitor_progress tasks) = 0 →
     success_rate (monitor_progress tasks) = 0%Q).
Proof.
  unfold monitor_progress. simpl. split; [reflexivity |]. split; [| split; [| split; [| split]]].
  - induction tasks as [| t tasks IH]; [unfold count_status; simpl; lia |].
    rewrite !count_status_cons. cbn [length].
    pose proof (proj1 (status_indicators (Task.status t))) as Hi. simpl in Hi. lia.
  - induction 1 as [| t tasks Ht _ IH]; [reflexivity |].
    rewrite !count_status_cons. cbn [length].
    pose proof (proj2 (status_indicators (Task.status t)) Ht) as Hi. simpl in Hi. lia.
  - destruct tasks as [| t tasks]; [split; discriminate |].
    apply rate_range; [apply count_status_range | cbn [length]; lia].
  - pose proof (count_status_range "completed" tasks).
    pose proof (count_status_range "failed" tasks).
    destruct (0 <? _) eqn:Hpos; [| split; discriminate].
    apply Z.ltb_lt in Hpos. apply rate_range; lia.
  - intros Hzero. rewrite Hzero. reflexivity.
Qed.

(** ** The result cache *)

Section Cache.
Context {V : Type}.
Implicit Types (k : string) (v : V) (d : list (string * V)).

Lemma dict_get_None k d : Py.dict_get k d = None ↔ k ∉ d.*1.
Proof.
  induction d as [| [k0 v0] d IH]; simpl.
  - split; [intros _ H; inversion H | reflexivity].
  - case_decide as Hk.
    + subst. split; [discriminate | intros H; exfalso; apply H; left].
    + rewrite IH, not_elem_of_cons. split; [auto | tauto].
Qed.

Lemma dict_set_fresh k v d : k ∉ d.*1 → Py.dict_set k v d = d ++ [(k, v)].
Proof.
  induction d as [| [k0 v0] d IH]; simpl; intros Hk; [reflexivity |].
  apply not_elem_of_cons in Hk as [Hne Hk].
  rewrite decide_False by congruence. rewrite IH by exact Hk. reflexivity.
Qed.

Lemma dict_get_last k v d : k ∉ d.*1 → Py.dict_get k (d ++ [(k, v)]) = Some v.
Proof.
  induction d as [| [k0 v0] d IH]; simpl; intros Hk.
  - rewrite decide_True by reflexivity. reflexivity.
  - apply not_elem_of_cons in Hk as [Hne Hk].
    rewrite decide_False by congruence. apply IH, Hk.
Qed.

(** Deleting the first [n] keys of a dictionary drops its first [n]
    entries. *)
Lemma delete_oldest n :
  ∀ d, foldl (λ cache key, Py.dict_del key cache) d (take n (Py.dict_keys d)) = drop n d.
Proof.
  induction n as [| n IH]; intros d; [reflexivity |].
  destruct d as [| [k v] d]; [reflexivity |].
  simpl. rewrite decide_True by reflexivity. apply IH.
Qed.
End Cache.

(** X3: the cache of [with_zai_cache], never above 100 entries before a
    call, is never above 100 after it. A cached key is answered from the
    cache, which stays as it is; otherwise the outcome is that of the wrapped
    function, a result is stored under the key (the next call with this key
    is answered from the cache), an exception stores nothing, and the 101st
    entry evicts the 50 oldest ones. *)
Theorem cache_wrapper_is_bounded_and_remembers
    (cache_key : string) (func : Py.outcome Py.value)
    (cache cache' : list (string * Py.value)) (out : Py.outcome Py.value) :
  NoDup cache.*1 →
  (length cache ≤ 100)%nat →
  wrapper cache_key func cache = (cache', out) →
  NoDup cache'.*1
  ∧ (length cache' ≤ 100)%nat
  ∧ (∀ cached, Py.dict_get cache_key cache = Some cached →
       cache' = cache ∧ out = Py.Returns cached)
  ∧ (Py.dict_get cache_key cache = None → out = func)
  ∧ (∀ result, out = Py.Returns result → Py.dict_get cache_key cache' = Some result)
  ∧ (∀ e, out = Py.Raises e → cache' = cache)
  ∧ (∀ result, Py.dict_get cache_key cache = None → func = Py.Returns result →
       cache' = if decide (length cache = 100%nat)
                then drop 50 cache ++ [(cache_key, result)]
                else cache ++ [(cache_key, result)]).
Proof.
  intros Hnd Hlen. unfold wrapper.
  destruct (Py.dict_get cache_key cache) as [cached |] eqn:Hget.
  - intros [= <- <-]. repeat split; auto; try congruence; discriminate.
  - destruct func as [result | e]; [| intros [= <- <-]; repeat split; auto; discriminate].
    apply dict_get_None in Hget. rewrite delete_oldest, dict_set_fresh by exact Hget.
    rewrite length_app. simpl. intros [= <- <-].
    assert (Hnd1 : NoDup (cache ++ [(cache_key, result)]).*1).
    { rewrite fmap_app. apply NoDup_app. split; [exact Hnd |]. split.
      - intros x Hx Hx'. apply list_elem_of_singleton in Hx'. subst. contradiction.
      - apply NoDup_singleton. }
    destruct (decide (length cache = 100%nat)) as [Hfull | Hroom].
    + rewrite Hfull. simpl. rewrite drop_app_le by lia.
      assert (Hout : cache_key ∉ (drop 50 cache).*1).
      { intros Hin. apply Hget. rewrite <- (take_drop 50 cache), fmap_app.
        apply elem_of_app. right. exact Hin. }
      split.
      { rewrite <- (take_drop 50 cache), <- app_assoc, fmap_app in Hnd1.
        apply NoDup_app in Hnd1 as (_ & _ & H). exact H. }
      split; [rewrite length_app, length_drop; simpl; lia |].
      split; [discriminate |]. split; [reflexivity |].
      split; [intros r [= <-]; apply dict_get_last, Hout |].
      split; [discriminate |]. intros r _ [= <-]. reflexivity.
    + assert (Hlt : (100 <? length cache + 1)%nat = false) by (apply Nat.ltb_ge; lia).
      rewrite Hlt. split; [exact Hnd1 |].
      split; [rewrite length_app; simpl; lia |].
      split; [discriminate |]. split; [reflexivity |].
      split; [intros r [= <-]; apply dict_get_last, Hget |].
      split; [discriminate |]. intros r _ [= <-]. reflexivity.
Qed.

(** ** The workflow order *)

Lemma add_task_S fuel subtasks task state :
  add_task (S fuel) subtasks task state
  = if decide (Task.id task ∈ state.2) then Some state
    else match visit_dependencies fuel subtasks (Task.dependencies task) (Some state) with
         | Some (workflow, processed) =>
             Some (workflow ++ [task], {[Task.id task]} ∪ processed)
         | None => None
         end.
Proof. reflexivity. Qed.

Lemma visit_dependencies_cons fuel subtasks dep deps state :
  visit_dependencies fuel subtasks (dep :: deps) (Some state)
  = visit_dependencies fuel subtasks deps
      (match find_task subtasks dep with
       | Some dep_task => add_task fuel subtasks dep_task state
       | None => Some state
       end).
Proof. reflexivity. Qed.

Lemma visit_dependencies_None fuel subtasks deps :
  visit_dependencies fuel subtasks deps None = None.
Proof. induction deps as [| d deps IH]; [reflexivity | exact IH]. Qed.

Lemma visit_tasks_cons fuel subtasks task tasks state :
  visit_tasks fuel subtasks (task :: tasks) (Some state)
  = visit_tasks fuel subtasks tasks (add_task fuel subtasks task state).
Proof. reflexivity. Qed.

Lemma visit_tasks_None fuel subtasks tasks : visit_tasks fuel subtasks tasks None = None.
Proof. induction tasks as [| t tasks IH]; [reflexivity | exact IH]. Qed.

Lemma create_workflow_visit fuel subtasks :
  create_workflow fuel subtasks = fst <$> visit_tasks fuel subtasks subtasks (Some ([], ∅)).
Proof. reflexivity. Qed.

Lemma find_task_Some subtasks dep t :
  find_task subtasks dep = Some t → t ∈ subtasks ∧ Task.id t = dep.
Proof.
  unfold find_task. intros H. apply find_some in H as [Hin Hid].
  apply bool_decide_eq_true in Hid. split; [apply list_elem_of_In, Hin | exact Hid].
Qed.

Lemma find_task_None subtasks dep :
  find_task subtasks dep = None → dep ∉ Task.id <$> subtasks.
Proof.
  unfold find_task. intros H Hin. apply list_elem_of_fmap in Hin as (t & -> & Ht).
  apply list_elem_of_In in Ht. pose proof (find_none _ _ H t Ht) as Hf. simpl in Hf.
  apply bool_decide_eq_false in Hf. contradiction.
Qed.

(** *** What a returned workflow looks like *)

Lemma add_task_in_order subtasks fuel :
  ∀ task state state',
    task ∈ subtasks → in_order subtasks state →
    add_task fuel subtasks task state = Some state' →
    in_order subtasks state' ∧ Task.id task ∈ state'.2 ∧ state.2 ⊆ state'.2.
Proof.
  induction fuel as [| fuel IH]; intros task state state' Hin Hord; [discriminate |].
  rewrite add_task_S. case_decide as Hdone.
  { intros [= <-]. auto. }
  assert (Hloop : ∀ deps st st',
            in_order subtasks st →
            visit_dependencies fuel subtasks deps (Some st) = Some st' →
            in_order subtasks st' ∧ st.2 ⊆ st'.2
            ∧ ∀ dep, dep ∈ deps → dep ∈ Task.id <$> subtasks → dep ∈ st'.2).
  { induction deps as [| dep deps IHd]; intros st st' Hst.
    - intros [= <-]. split; [exact Hst |]. split; [reflexivity |].
      intros dep H. inversion H.
    - rewrite visit_dependencies_cons.
      destruct (find_task subtasks dep) as [dt |] eqn:Hfind.
      + apply find_task_Some in Hfind as [Hdt Hid].
        destruct (add_task fuel subtasks dt st) as [st1 |] eqn:Hadd;
          [| rewrite visit_dependencies_None; discriminate].
        destruct (IH dt st st1 Hdt Hst Hadd) as (Hst1 & Hdep & Hmono).
        intros Hrest. destruct (IHd st1 st' Hst1 Hrest) as (Hst' & Hmono' & Hall).
        split; [exact Hst' |]. split; [intros y Hy; apply Hmono', Hmono, Hy |].
        intros d Hd Hpres. apply elem_of_cons in Hd as [-> | Hd]; [| auto].
        apply Hmono'. congruence.
      + intros Hrest. destruct (IHd st st' Hst Hrest) as (Hst' & Hmono' & Hall).
        split; [exact Hst' |]. split; [exact Hmono' |].
        intros d Hd Hpres. apply elem_of_cons in Hd as [-> | Hd]; [| auto].
        apply find_task_None in Hfind. contradiction. }
  destruct (visit_dependencies fuel subtasks (Task.dependencies task) (Some state))
    as [[workflow processed] |] eqn:Hvisit; [| discriminate].
  intros [= <-]. destruct (Hloop _ _ _ Hord Hvisit) as ((Hp & Hsub & Hfwd) & Hmono & Hall).
  simpl in *. split; [| split].
  2: { apply elem_of_union. left. apply elem_of_singleton. reflexivity. }
  2: { intros y Hy. apply elem_of_union. right. apply Hmono, Hy. }
  split; [| split]; simpl.
  - intros x. rewrite fmap_app, elem_of_app, elem_of_union, elem_of_singleton, Hp.
    simpl. rewrite list_elem_of_singleton. tauto.
  - intros t Ht. apply elem_of_app in Ht as [Ht | Ht]; [auto |].
    apply list_elem_of_singleton in Ht. subst. exact Hin.
  - intros i t dep Hi Hdep Hpres.
    destruct (decide (i < length workflow)%nat) as [Hlt | Hge].
    + rewrite lookup_app_l in Hi by exact Hlt.
      destruct (Hfwd i t dep Hi Hdep Hpres) as (j & t' & Hj & Ht' & Hid).
      exists j, t'. rewrite lookup_app_l by lia. auto.
    + rewrite lookup_app_r in Hi by lia.
      destruct (i - length workflow)%nat as [| n] eqn:Hn; [| destruct n; discriminate].
      simpl in Hi. inversion Hi; subst t.
      apply Hall, Hp, list_elem_of_fmap in Hpres as (t' & Hid & Ht'); [| exact Hdep].
      apply list_elem_of_lookup in Ht' as [j Hj].
      exists j, t'. rewrite lookup_app_l by (eapply lookup_lt_Some; eauto).
      split; [apply lookup_lt_Some in Hj; lia | auto].
Qed.

(** X14: when [create_workflow] returns, the workflow holds only tasks of
    [subtasks], holds the id of every task of [subtasks], and lists every
    task after the tasks of [subtasks] it depends on. *)
Theorem create_workflow_respects_dependencies
    (fuel : nat) (subtasks workflow : list Task.t) :
  create_workflow fuel subtasks = Some workflow →
  (∀ t, t ∈ workflow → t ∈ subtasks)
  ∧ (∀ t, t ∈ subtasks → Task.id t ∈ Task.id <$> workflow)
  ∧ (∀ i t dep, workflow !! i = Some t → dep ∈ Task.dependencies t →
       dep ∈ Task.id <$> subtasks →
       ∃ j t', (j < i)%nat ∧ workflow !! j = Some t' ∧ Task.id t' = dep).
Proof.
  rewrite create_workflow_visit.
  assert (Hloop : ∀ tasks st st',
            (∀ t, t ∈ tasks → t ∈ subtasks) → in_order subtasks st →
            visit_tasks fuel subtasks tasks (Some st) = Some st' →
            in_order subtasks st' ∧ st.2 ⊆ st'.2
            ∧ ∀ t, t ∈ tasks → Task.id t ∈ st'.2).
  { intros tasks. induction tasks as [| t tasks IH]; intros st st' Hsub Hst.
    - intros [= <-]. split; [exact Hst |]. split; [reflexivity |]. intros t H. inversion H.
    - rewrite visit_tasks_cons.
      destruct (add_task fuel subtasks t st) as [st1 |] eqn:Hadd;
        [| rewrite visit_tasks_None; discriminate].
      assert (Ht : t ∈ subtasks) by (apply Hsub; left).
      destruct (add_task_in_order subtasks fuel t st st1 Ht Hst Hadd) as (Hst1 & Hid & Hmono).
      intros Hrest.
      destruct (IH st1 st' (λ u Hu, Hsub u (list_elem_of_further _ _ _ Hu)) Hst1 Hrest)
        as (Hst' & Hmono' & Hall).
      split; [exact Hst' |]. split; [intros y Hy; apply Hmono', Hmono, Hy |].
      intros u Hu. apply elem_of_cons in Hu as [-> | Hu]; [apply Hmono', Hid | auto]. }
  destruct (visit_tasks fuel subtasks subtasks (Some ([], ∅))) as [[w p] |] eqn:Hrun;
    [| discriminate].
  intros [= <-].
  destruct (Hloop subtasks ([], ∅) (w, p)) as ((Hp & Hsub & Hfwd) & _ & Hall); auto.
  { split; [| split]; simpl.
    - intros x. split; [intros H; apply elem_of_empty in H; contradiction
                       | intros H; inversion H].
    - intros t H. inversion H.
    - intros i t dep H. destruct i; discriminate. }
  simpl in *. split; [exact Hsub |]. split; [| exact Hfwd].
  intros t Ht. apply Hp, Hall, Ht.
Qed.

(** *** Lists that are already in order *)

Lemma visit_dependencies_processed fuel subtasks deps :
  ∀ state,
    (∀ dep, dep ∈ deps → dep ∈ state.2) →
    visit_dependencies (S fuel) subtasks deps (Some state) = Some state.
Proof.
  induction deps as [| dep deps IH]; intros state Hdone; [reflexivity |].
  rewrite visit_dependencies_cons.
  destruct (find_task subtasks dep) as [dt |] eqn:Hfind.
  - apply find_task_Some in Hfind as [_ Hid].
    rewrite add_task_S, decide_True by (rewrite Hid; apply Hdone; left).
    apply IH. intros d Hd. apply Hdone. right. exact Hd.
  - apply IH. intros d Hd. apply Hdone. right. exact Hd.
Qed.

Lemma visit_tasks_forward fuel subtasks rest :
  ∀ done processed,
    forward (done ++ rest) → NoDup (Task.id <$> done ++ rest) →
    (∀ x, x ∈ processed ↔ x ∈ Task.id <$> done) →
    fst <$> visit_tasks (S (S fuel)) subtasks rest (Some (done, processed))
    = Some (done ++ rest).
Proof.
  induction rest as [| t rest IH]; intros done processed Hfwd Hnd Hp.
  - simpl. rewrite app_nil_r. reflexivity.
  - rewrite visit_tasks_cons, add_task_S. simpl.
    rewrite decide_False.
    2: { rewrite Hp. rewrite fmap_app in Hnd. apply NoDup_app in Hnd as (_ & Hdisj & _).
         intros Hin. apply (Hdisj _ Hin). left. }
    rewrite visit_dependencies_processed.
    2: { intros dep Hdep. simpl. apply Hp.
         destruct (Hfwd (length done) t dep) as (j & t' & Hj & Ht' & <-);
           [rewrite lookup_app_r, Nat.sub_diag by lia; reflexivity | exact Hdep |].
         rewrite lookup_app_l in Ht' by exact Hj.
         apply list_elem_of_fmap_2, list_elem_of_lookup. eauto. }
    rewrite (IH (done ++ [t])), <- ?app_assoc; [reflexivity | | |];
      rewrite <- ?app_assoc; try assumption.
    intros x. rewrite fmap_app, elem_of_app, elem_of_union, elem_of_singleton, Hp.
    simpl. rewrite list_elem_of_singleton. tauto.
Qed.

(** X15: on a list with distinct ids in which every dependency names an
    earlier task, [create_workflow] returns the list as it is (two nested
    calls are enough). *)
Theorem create_workflow_keeps_forward_list (fuel : nat) (subtasks : list Task.t) :
  forward subtasks →
  NoDup (Task.id <$> subtasks) →
  create_workflow (S (S fuel)) subtasks = Some subtasks.
Proof.
  intros Hfwd Hnd. rewrite create_workflow_visit.
  apply (visit_tasks_forward fuel subtasks subtasks [] ∅); auto.
  intros x. split; [intros H; apply elem_of_empty in H; contradiction
                   | intros H; inversion H].
Qed.

(** *** Cycles *)

Lemma same_id_same_task (l : list Task.t) (x y : Task.t) :
  NoDup (Task.id <$> l) → x ∈ l → y ∈ l → Task.id x = Task.id y → x = y.
Proof.
  intros Hnd Hx Hy Hid.
  apply list_elem_of_lookup in Hx as [i Hi]. apply list_elem_of_lookup in Hy as [j Hj].
  assert (i = j).
  { apply (NoDup_lookup (Task.id <$> l) i j (Task.id x)); [exact Hnd | |];
      rewrite list_lookup_fmap; [rewrite Hi | rewrite Hj]; simpl; congruence. }
  subst. congruence.
Qed.

Section Cycle.
Variable subtasks : list Task.t.
Variable G : list Task.t.
Hypothesis Hnd : NoDup (Task.id <$> subtasks).
Hypothesis Hsub : G ⊆ subtasks.
Hypothesis Hstuck : Forall (stuck G) G.

Lemma add_task_cycle fuel :
  ∀ task state,
    task ∈ subtasks → untouched G state →
    (task ∈ G → add_task fuel subtasks task state = None)
    ∧ (∀ state', add_task fuel subtasks task state = Some state' → untouched G state').
Proof.
  induction fuel as [| fuel IH]; intros task state Hin Hun; [split; [reflexivity | discriminate] |].
  assert (Hloop : ∀ deps st,
            untouched G st →
            (∀ st', visit_dependencies fuel subtasks deps (Some st) = Some st' → untouched G st')
            ∧ ((∃ dep, dep ∈ deps ∧ dep ∈ Task.id <$> G) →
               visit_dependencies fuel subtasks deps (Some st) = None)).
  { induction deps as [| dep deps IHd]; intros st Hst.
    - split; [intros st' [= <-]; exact Hst | intros (d & Hd & _); inversion Hd].
    - rewrite visit_dependencies_cons.
      destruct (find_task subtasks dep) as [dt |] eqn:Hfind.
      + apply find_task_Some in Hfind as [Hdt Hid].
        destruct (IH dt st Hdt Hst) as [Hdiv Hsafe].
        destruct (add_task fuel subtasks dt st) as [st1 |] eqn:Hadd.
        * destruct (IHd st1 (Hsafe st1 eq_refl)) as [Hsafe' Hdiv'].
          split; [exact Hsafe' |]. intros (d & Hd & HdG).
          apply elem_of_cons in Hd as [-> | Hd]; [| eauto].
          apply list_elem_of_fmap in HdG as (g & Hg & HgG).
          assert (dt = g) by (apply (same_id_same_task subtasks); auto; congruence).
          subst dt. specialize (Hdiv HgG). discriminate.
        * rewrite visit_dependencies_None. split; [discriminate | reflexivity].
      + destruct (IHd st Hst) as [Hsafe' Hdiv']. split; [exact Hsafe' |].
        intros (d & Hd & HdG). apply elem_of_cons in Hd as [-> | Hd]; [| eauto].
        apply find_task_None in Hfind. exfalso. apply Hfind.
        apply list_elem_of_fmap in HdG as (g & -> & HgG).
        apply list_elem_of_fmap_2, Hsub, HgG. }
  rewrite add_task_S. case_decide as Hdone.
  - split; [intros HG; destruct (Hun task HG Hdone) | intros st' [= <-]; exact Hun].
  - destruct (Hloop (Task.dependencies task) state Hun) as [Hsafe Hdiv].
    assert (HG : task ∈ G →
              visit_dependencies fuel subtasks (Task.dependencies task) (Some state) = None).
    { intros HG. apply Hdiv. rewrite Forall_forall in Hstuck. apply Hstuck, HG. }
    split.
    + intros HG'. rewrite (HG HG'). reflexivity.
    + destruct (visit_dependencies fuel subtasks (Task.dependencies task) (Some state))
        as [[w p] |] eqn:Hvisit; [| discriminate].
      intros st' [= <-] g Hg. simpl.
      rewrite elem_of_union, elem_of_singleton. intros [Hid | Hp].
      * assert (g = task) by (apply (same_id_same_task subtasks); auto).
        subst g. specialize (HG Hg). discriminate.
      * apply (Hsafe (w, p) eq_refl g Hg Hp).
Qed.

Lemma visit_tasks_cycle fuel tasks :
  ∀ state,
    (∀ t, t ∈ tasks → t ∈ subtasks) → untouched G state →
    (∃ g, g ∈ tasks ∧ g ∈ G) →
    visit_tasks fuel subtasks tasks (Some state) = None.
Proof.
  induction tasks as [| t tasks IH]; intros state Hin Hun (g & Hg & HgG); [inversion Hg |].
  rewrite visit_tasks_cons.
  destruct (add_task_cycle fuel t state (Hin t (list_elem_of_here _ _)) Hun) as [Hdiv Hsafe].
  destruct (add_task fuel subtasks t state) as [st1 |] eqn:Hadd;
    [| apply visit_tasks_None].
  apply elem_of_cons in Hg as [-> | Hg]; [specialize (Hdiv HgG); discriminate |].
  apply IH; [intros u Hu; apply Hin; right; exact Hu | apply Hsafe; reflexivity | eauto].
Qed.
End Cycle.

(** X16: when the sub-tasks have distinct ids and some of them wait for
    each other (a dependency cycle), [create_workflow] never returns: it
    exceeds every recursion depth. *)
Theorem create_workflow_overflows_on_cycle
    (fuel : nat) (subtasks G : list Task.t) :
  NoDup (Task.id <$> subtasks) →
  G ⊆ subtasks →
  blocking G →
  create_workflow fuel subtasks = None.
Proof.
  intros Hnd Hsub [Hne Hstuck]. rewrite create_workflow_visit.
  rewrite (visit_tasks_cycle subtasks G Hnd Hsub Hstuck); [reflexivity | auto | |].
  - intros g _ H. apply elem_of_empty in H. contradiction.
  - destruct G as [| g G]; [contradiction |]. exists g.
    split; [apply Hsub; left | left].
Qed.

(** ** Worked instances *)

Lemma constructed_agent_never_fails_by_itself_witness :
  metrics_consistent (BaseAgent.performance_metrics Examples.agent_after_run.1).
Proof.
  apply (constructed_agent_never_fails_by_itself
           "agent-1" "ResearchAgent"
           (AgentFactory.class_capabilities AgentFactory.researcher) 0
           Examples.two_tasks Examples.agent_after_run.1 Examples.agent_after_run.2).
  eapply rtc_l; [apply (BaseAgent.step_assign _ _ 1%nat) |].
  eapply rtc_l; [apply (BaseAgent.step_execute _ _ (Py.Returns (Py.VStr "done")) 2%Q) |].
  apply rtc_refl.
Defined.

Lemma agent_leaves_idle_for_good_witness :
  BaseAgent.status Examples.agent_after_run.1 ≠ IDLE.
Proof.
  apply (agent_leaves_idle_for_good
           Examples.agent_assigned.1 Examples.agent_assigned.2
           Examples.agent_after_run.1 Examples.agent_after_run.2).
  - eapply rtc_l; [apply (BaseAgent.step_execute _ _ (Py.Returns (Py.VStr "done")) 2%Q) |].
    apply rtc_refl.
  - discriminate.
Defined.

Lemma cache_wrapper_is_bounded_and_remembers_witness :
  (length (wrapper "k" (Py.Returns (Py.VInt 1)) Examples.small_cache).1 ≤ 100)%nat.
Proof.
  apply (cache_wrapper_is_bounded_and_remembers
           "k" (Py.Returns (Py.VInt 1)) Examples.small_cache
           (wrapper "k" (Py.Returns (Py.VInt 1)) Examples.small_cache).1
           (wrapper "k" (Py.Returns (Py.VInt 1)) Examples.small_cache).2);
    [apply (bool_decide_unpack _); vm_compute; exact I | simpl; lia | reflexivity].
Defined.

Lemma reachable_pool_is_well_formed_witness :
  well_formed (coordinator Examples.world_after_dispatch).
Proof.
  apply (reachable_pool_is_well_formed 1).
  eapply rtc_l; [apply (step_submit (initial 1) 0%nat Examples.first_task) |].
  eapply rtc_l; [apply (step_dispatch _ "agent-1" 0) |].
  apply rtc_refl.
Defined.

Lemma full_world_no_idle_agent task :
  no_idle_agent_for (coordinator Examples.full_world) task.
Proof.
  intros k a Hin Hidle. apply list_elem_of_singleton in Hin. inversion Hin; subst.
  discriminate.
Qed.

Lemma dispatch_requeues_when_pool_is_full_witness :
  task_queue (coordinator (_process_task_queue "agent-2" 1 Examples.full_world)) = [0%nat].
Proof.
  rewrite (dispatch_requeues_when_pool_is_full
             "agent-2" 1 Examples.full_world 0%nat [] Examples.failed_task);
    [reflexivity | reflexivity | reflexivity | apply full_world_no_idle_agent
     | vm_compute; discriminate].
Defined.

Lemma dispatch_drops_task_the_factory_cannot_serve_witness :
  task_queue (coordinator (_process_task_queue "agent-1" 1 Examples.plain_world)) = []
  ∧ executing (_process_task_queue "agent-1" 1 Examples.plain_world) = [].
Proof.
  rewrite (dispatch_drops_task_the_factory_cannot_serve
             "agent-1" 1 Examples.plain_world 2%nat [] Examples.plain_task);
    [split; reflexivity | reflexivity | reflexivity
     | intros k a Hin; inversion Hin | vm_compute; reflexivity | left; reflexivity].
Defined.

Lemma dispatch_assigns_task_to_created_agent_witness :
  executing (_process_task_queue "agent-1" 0 Examples.world_after_submit)
  = [("agent-1", 0%nat)].
Proof.
  rewrite (dispatch_assigns_task_to_created_agent
             "agent-1" 0 Examples.world_after_submit 0%nat [] Examples.first_task
             AgentFactory.researcher);
    [reflexivity | reflexivity | reflexivity | intros k a Hin; inversion Hin
     | vm_compute; reflexivity | reflexivity | discriminate | discriminate
     | intros Hin; inversion Hin].
Defined.

Lemma saturated_pool_stays_saturated_witness :
  saturated (coordinator (_process_task_queue "agent-2" 1 Examples.full_world)).
Proof.
  apply (saturated_pool_stays_saturated Examples.full_world).
  - split; [vm_compute; discriminate |].
    intros k a Hin Hidle. apply list_elem_of_singleton in Hin. inversion Hin; subst.
    discriminate.
  - apply rtc_once, step_dispatch.
Defined.

Lemma monitor_sweep_is_idempotent_witness :
  _monitor_agents 301000000
    (_monitor_agents 301000000 Examples.coordinator_idle_and_busy).1
  = ((_monitor_agents 301000000 Examples.coordinator_idle_and_busy).1, []).
Proof.
  apply monitor_sweep_is_idempotent.
  apply (bool_decide_unpack _). vm_compute. exact I.
Defined.

Lemma chain_pair_forward : forward Examples.chain_pair.
Proof.
  intros i t dep Hi Hdep.
  destruct i as [| [| i]]; simpl in Hi; try discriminate;
    inversion Hi; subst; simpl in Hdep; [inversion Hdep |].
  apply list_elem_of_singleton in Hdep. subst dep.
  exists 0%nat, Examples.first. split; [lia | split; reflexivity].
Qed.

Lemma create_workflow_keeps_forward_list_witness :
  create_workflow 2 Examples.chain_pair = Some Examples.chain_pair.
Proof.
  apply (create_workflow_keeps_forward_list 0 Examples.chain_pair chain_pair_forward).
  apply (bool_decide_unpack _). vm_compute. exact I.
Defined.

Lemma create_workflow_overflows_on_cycle_witness :
  create_workflow 1000 Examples.cyclic_pair = None.
Proof.
  apply (create_workflow_overflows_on_cycle 1000 Examples.cyclic_pair Examples.cyclic_pair).
  - apply (bool_decide_unpack _). vm_compute. exact I.
  - intros x Hx. exact Hx.
  - split; [discriminate |]. repeat constructor.
    + exists "b". split; [left | right; left].
    + exists "a". split; [left | left].
Defined.

Lemma create_workflow_respects_dependencies_witness :
  Examples.first ∈ [Examples.second; Examples.first].
Proof.
  apply (create_workflow_respects_dependencies
           5 [Examples.second; Examples.first] [Examples.first; Examples.second] eq_refl).
  left.
Defined.

(** X17: for ids that [uuid4] never repeats, the workflow of the result of
    [decompose_task] is that result, in the same order. *)
Theorem workflow_of_decomposition_is_the_decomposition
    (uuid4 : nat → string) (now : nat → Z) (task : Task.t) (max_subtasks : Z) (fuel : nat) :
  Inj (=) (=) uuid4 →
  create_workflow (S (S fuel)) (decompose_task uuid4 now task max_subtasks)
  = Some (decompose_task uuid4 now task max_subtasks).
Proof.
  intros Hinj. unfold decompose_task.
  destruct (slice_to_take max_subtasks (template uuid4 now task)) as [k Hk].
  rewrite Hk, create_workflow_visit.
  apply (visit_tasks_forward fuel _ _ [] ∅).
  - simpl. apply forward_take, template_forward.
  - simpl. rewrite fmap_take, template_ids.
    eapply sublist_NoDup; [| apply sublist_take].
    apply NoDup_fmap_2; [exact Hinj | apply NoDup_seq].
  - intros x. split; [intros H; apply elem_of_empty in H; contradiction
                     | intros H; inversion H].
Qed.

Lemma workflow_of_decomposition_is_the_decomposition_witness :
  create_workflow 2 (decompose_task Examples.counter_uuid4 (λ _, 0) Examples.first_task 10)
  = Some (decompose_task Examples.counter_uuid4 (λ _, 0) Examples.first_task 10).
Proof.
  apply (workflow_of_decomposition_is_the_decomposition
           Examples.counter_uuid4 (λ _, 0) Examples.first_task 10 0).
  unfold Examples.counter_uuid4. apply _.
Defined.
